(** * Agent identity registry and its on-chain updater

    A shallow embedding of
    - [AgentIdentityRegistry.sol] (an ERC-721 with URI storage, a per-agent
      key/value store and a counter of agent ids), and
    - [backend/src/services/updaterService.ts] (the timer-driven service that
      republishes the token URI with a cache-busting version),
    followed by the properties of the two that the specification states. *)

From Stdlib Require Import ZArith NArith String List Lia.
From stdpp Require Import base option gmap strings list pretty.

Local Open Scope N_scope.

(** ** Part I. The registry contract *)

Module Registry.

Definition uint256 : Type := N.
Definition address : Type := N.
Definition bytes : Type := list Byte.byte.

(** [type(uint256).max] *)
Definition MAX_UINT256 : N := 2 ^ 256 - 1.

(** Revert reasons: the two [require] strings of the contract, the custom
    errors of the ERC-721 base, the guard's error and the arithmetic panic. *)
Inductive error : Type :=
| TokenURI_cannot_be_empty
| URI_cannot_be_empty
| Not_owner_or_approved
| ERC721NonexistentToken (tokenId : uint256)
| ERC721InvalidReceiver (receiver : address)
| ERC721InvalidSender (sender : address)
| ERC721IncorrectOwner (sender : address) (tokenId : uint256) (owner : address)
| ERC721InsufficientApproval (operator : address) (tokenId : uint256)
| ERC721InvalidApprover (approver : address)
| ERC721InvalidOperator (operator : address)
| ReentrancyGuardReentrantCall
| Panic (code : N).

(** The error taxonomy of the specification. *)
Inductive error_class : Type :=
| ValidationError
| PermissionDenied
| NotFound
| OtherFailure.

Definition classify (e : error) : error_class :=
  match e with
  | TokenURI_cannot_be_empty | URI_cannot_be_empty => ValidationError
  | Not_owner_or_approved | ERC721InsufficientApproval _ _ => PermissionDenied
  | ERC721NonexistentToken _ => NotFound
  | _ => OtherFailure
  end.

Inductive result (A : Type) : Type :=
| Ok (a : A)
| Revert (e : error).
Arguments Ok {A} a.
Arguments Revert {A} e.

#[global] Instance result_ret : MRet result := fun A a => Ok a.
#[global] Instance result_bind : MBind result := fun A B f m =>
  match m with
  | Ok a => f a
  | Revert e => Revert e
  end.

Definition require (b : bool) (e : error) : result unit :=
  if b then Ok tt else Revert e.

Inductive event : Type :=
| Transfer (from to : address) (tokenId : uint256)
| Approval (owner approved : address) (tokenId : uint256)
| ApprovalForAll (owner operator : address) (approved : bool)
| MetadataUpdate (tokenId : uint256)
| Registered (agentId : uint256) (tokenURI : string) (owner : address)
| AgentURIUpdated (agentId : uint256) (newURI : string)
| MetadataSet (agentId : uint256) (key : string) (value : bytes).

(** Storage of the contract. A Solidity mapping is total and reads its zero
    value where nothing was written: a finite map read with a default. *)
Record state : Type := mkState {
  _owners : gmap N N;
  _balances : gmap N N;
  _tokenApprovals : gmap N N;
  _operatorApprovals : gmap (N * N) bool;
  _tokenURIs : gmap N string;
  _status : N;
  _nextAgentId : N;
  _metadata : gmap N (gmap string (list Byte.byte));
  events : list event
}.

Definition NOT_ENTERED : N := 1.
Definition ENTERED : N := 2.

(** State after the constructor: [_nextAgentId = 1], nothing minted. *)
Definition constructor : state :=
  mkState ∅ ∅ ∅ ∅ ∅ NOT_ENTERED 1 ∅ [].

Definition set_owners (v : gmap N N) (s : state) : state :=
  mkState v (_balances s) (_tokenApprovals s) (_operatorApprovals s)
          (_tokenURIs s) (_status s) (_nextAgentId s) (_metadata s) (events s).
Definition set_balances (v : gmap N N) (s : state) : state :=
  mkState (_owners s) v (_tokenApprovals s) (_operatorApprovals s)
          (_tokenURIs s) (_status s) (_nextAgentId s) (_metadata s) (events s).
Definition set_tokenApprovals (v : gmap N N) (s : state) : state :=
  mkState (_owners s) (_balances s) v (_operatorApprovals s)
          (_tokenURIs s) (_status s) (_nextAgentId s) (_metadata s) (events s).
Definition set_operatorApprovals (v : gmap (N * N) bool) (s : state) : state :=
  mkState (_owners s) (_balances s) (_tokenApprovals s) v
          (_tokenURIs s) (_status s) (_nextAgentId s) (_metadata s) (events s).
Definition set_tokenURIs (v : gmap N string) (s : state) : state :=
  mkState (_owners s) (_balances s) (_tokenApprovals s) (_operatorApprovals s)
          v (_status s) (_nextAgentId s) (_metadata s) (events s).
Definition set_status (v : N) (s : state) : state :=
  mkState (_owners s) (_balances s) (_tokenApprovals s) (_operatorApprovals s)
          (_tokenURIs s) v (_nextAgentId s) (_metadata s) (events s).
Definition set_nextAgentId (v : N) (s : state) : state :=
  mkState (_owners s) (_balances s) (_tokenApprovals s) (_operatorApprovals s)
          (_tokenURIs s) (_status s) v (_metadata s) (events s).
Definition set_metadata (v : gmap N (gmap string (list Byte.byte))) (s : state) : state :=
  mkState (_owners s) (_balances s) (_tokenApprovals s) (_operatorApprovals s)
          (_tokenURIs s) (_status s) (_nextAgentId s) v (events s).
Definition emit (e : event) (s : state) : state :=
  mkState (_owners s) (_balances s) (_tokenApprovals s) (_operatorApprovals s)
          (_tokenURIs s) (_status s) (_nextAgentId s) (_metadata s) (events s ++ [e]).

(** *** The ERC-721 base the contract inherits

    [ERC721URIStorage], [ERC721] and [ReentrancyGuard] are imported from
    OpenZeppelin Contracts 5 ([Ownable(msg.sender)], [utils/ReentrancyGuard.sol])
    and are not part of the repository's own sources. *)

(** Modelled from the spec: the inherited [ERC721._ownerOf]; the owner field
    of a record, [address(0)] for an id that was never created. *)
Definition _ownerOf (s : state) (tokenId : uint256) : address :=
  default 0 (_owners s !! tokenId).

(** Modelled from the spec: the inherited [ERC721._requireOwned]; a query
    against a nonexistent id fails (NotFound). *)
Definition _requireOwned (s : state) (tokenId : uint256) : result address :=
  let owner := _ownerOf s tokenId in
  if bool_decide (owner = 0) then Revert (ERC721NonexistentToken tokenId)
  else Ok owner.

(** Modelled from the spec: the inherited query [ownerOf]. *)
Definition ownerOf (s : state) (tokenId : uint256) : result address :=
  _requireOwned s tokenId.

(** Modelled from the spec: the inherited [ERC721._getApproved], the single
    delegate of a record ([address(0)] when there is none). *)
Definition _getApproved (s : state) (tokenId : uint256) : address :=
  default 0 (_tokenApprovals s !! tokenId).

(** Modelled from the spec: the inherited query [getApproved]. *)
Definition getApproved (s : state) (tokenId : uint256) : result address :=
  _ ← _requireOwned s tokenId;
  Ok (_getApproved s tokenId).

(** Modelled from the spec: the inherited query [isApprovedForAll], membership
    in [operatorForAll[owner]]. *)
Definition isApprovedForAll (s : state) (owner operator : address) : bool :=
  default false (_operatorApprovals s !! (owner, operator)).

(** Modelled from the spec: the inherited [balanceOf] counter (unchecked
    arithmetic on [uint256]). *)
Definition _balanceOf (s : state) (a : address) : N :=
  default 0 (_balances s !! a).

(** Modelled from the spec: the inherited [ERC721._isAuthorized]: the caller
    is the owner, an operator of the owner, or the single delegate. *)
Definition _isAuthorized (s : state) (owner spender : address) (tokenId : uint256) : bool :=
  negb (bool_decide (spender = 0)) &&
  (bool_decide (owner = spender) || isApprovedForAll s owner spender
   || bool_decide (_getApproved s tokenId = spender)).

(** Modelled from the spec: the inherited [ERC721._checkAuthorized]. *)
Definition _checkAuthorized (s : state) (owner spender : address) (tokenId : uint256)
  : result unit :=
  if _isAuthorized s owner spender tokenId then Ok tt
  else if bool_decide (owner = 0) then Revert (ERC721NonexistentToken tokenId)
  else Revert (ERC721InsufficientApproval spender tokenId).

(** Modelled from the spec: the inherited [ERC721._approve(to, tokenId, auth,
    emitEvent)]. *)
Definition _approve (s : state) (to : address) (tokenId : uint256) (auth : address)
    (emitEvent : bool) : result state :=
  s1 ← (if emitEvent || negb (bool_decide (auth = 0)) then
          owner ← _requireOwned s tokenId;
          _ ← require (negb (negb (bool_decide (auth = 0))
                             && negb (bool_decide (owner = auth))
                             && negb (isApprovedForAll s owner auth)))
                      (ERC721InvalidApprover auth);
          Ok (if emitEvent then emit (Approval owner to tokenId) s else s)
        else Ok s);
  Ok (set_tokenApprovals (<[tokenId := to]> (_tokenApprovals s1)) s1).

(** Modelled from the spec: the inherited [ERC721._update]: the ownership
    change itself. It checks the caller when [auth] is not zero, clears the
    single delegate, moves the balance and writes the new owner. *)
Definition _update (s : state) (to : address) (tokenId : uint256) (auth : address)
  : result (address * state) :=
  let from := _ownerOf s tokenId in
  _ ← (if bool_decide (auth = 0) then Ok tt
       else _checkAuthorized s from auth tokenId);
  s1 ← (if bool_decide (from = 0) then Ok s
        else
          s' ← _approve s 0 tokenId 0 false;
          Ok (set_balances
                (<[from := (_balanceOf s' from + MAX_UINT256) mod 2 ^ 256]> (_balances s')) s'));
  let s2 := if bool_decide (to = 0) then s1
            else set_balances
                   (<[to := (_balanceOf s1 to + 1) mod 2 ^ 256]> (_balances s1)) s1 in
  let s3 := set_owners (<[tokenId := to]> (_owners s2)) s2 in
  Ok (from, emit (Transfer from to tokenId) s3).

(** What the ERC-721 acceptance check sees at an address: an account without
    code, or a contract whose [onERC721Received] hook returns four bytes, or
    one whose hook is missing or reverts without a reason. A hook that calls
    back into the registry, and one that reverts with a reason of its own
    (which the base contract passes on as it is), are outside this model: for
    an account without code no hook runs and the model is exact. *)
Inductive receiver : Type :=
| NoCode
| HookReturns (retval : N)
| HookReverts.

(** [IERC721Receiver.onERC721Received.selector] *)
Definition onERC721Received_selector : N := 0x150b7a02.

(** Modelled from the spec: the acceptance check of the inherited safe mint
    and safe transfer ([checkOnERC721Received]), missing from the sources. The
    specification leaves it to the standard ERC-721 base; the repository's
    test contract implements the hook because it is "required for receiving
    ERC721 tokens via safeMint". *)
Definition checkOnERC721Received (chain : address -> receiver) (to : address)
  : result unit :=
  match chain to with
  | NoCode => Ok tt
  | HookReturns retval =>
      require (bool_decide (retval = onERC721Received_selector))
              (ERC721InvalidReceiver to)
  | HookReverts => Revert (ERC721InvalidReceiver to)
  end.

(** Modelled from the spec: the inherited [ERC721._mint]. *)
Definition _mint (s : state) (to : address) (tokenId : uint256) : result state :=
  _ ← require (negb (bool_decide (to = 0))) (ERC721InvalidReceiver 0);
  '(previousOwner, s1) ← _update s to tokenId 0;
  _ ← require (bool_decide (previousOwner = 0)) (ERC721InvalidSender 0);
  Ok s1.

(** Modelled from the spec: the inherited [ERC721._safeMint]. *)
Definition _safeMint (chain : address -> receiver) (s : state) (to : address)
    (tokenId : uint256) : result state :=
  s1 ← _mint s to tokenId;
  _ ← checkOnERC721Received chain to;
  Ok s1.

(** Modelled from the spec: the inherited [ERC721URIStorage._setTokenURI]. *)
Definition _setTokenURI (s : state) (tokenId : uint256) (_tokenURI : string) : state :=
  emit (MetadataUpdate tokenId)
       (set_tokenURIs (<[tokenId := _tokenURI]> (_tokenURIs s)) s).

(** [ERC721._baseURI], not overridden by the contract. *)
Definition _baseURI : string := "".

(** Modelled from the spec: the inherited [ERC721URIStorage.tokenURI], the
    read of a record's pointer. *)
Definition tokenURI (s : state) (tokenId : uint256) : result string :=
  _ ← _requireOwned s tokenId;
  let _tokenURI := default "" (_tokenURIs s !! tokenId) in
  let base := _baseURI in
  if bool_decide (String.length base = 0%nat) then Ok _tokenURI
  else if bool_decide (0 < String.length _tokenURI)%nat then Ok (base +:+ _tokenURI)
  else Ok (base +:+ pretty tokenId).

(** Modelled from the spec: the ownership transfer of a record, the inherited
    [ERC721.transferFrom], which the repository's sources only call. The
    caller must be the owner, the single delegate or an operator of the owner;
    the owner becomes [to] and the single delegate is cleared; operator
    approvals are untouched. *)
Definition transferFrom (s : state) (sender : address) (from to : address)
    (tokenId : uint256) : result state :=
  _ ← require (negb (bool_decide (to = 0))) (ERC721InvalidReceiver 0);
  '(previousOwner, s1) ← _update s to tokenId sender;
  _ ← require (bool_decide (previousOwner = from))
              (ERC721IncorrectOwner from tokenId previousOwner);
  Ok s1.

(** Modelled from the spec: the inherited [ERC721.safeTransferFrom]. *)
Definition safeTransferFrom (chain : address -> receiver) (s : state)
    (sender : address) (from to : address) (tokenId : uint256) : result state :=
  s1 ← transferFrom s sender from to tokenId;
  _ ← checkOnERC721Received chain to;
  Ok s1.

(** Modelled from the spec: the inherited [ERC721.approve], which names the
    single delegate of a record. *)
Definition approve (s : state) (sender : address) (to : address) (tokenId : uint256)
  : result state :=
  _approve s to tokenId sender true.

(** Modelled from the spec: the inherited [ERC721.setApprovalForAll], which
    edits [operatorForAll] of the caller. *)
Definition setApprovalForAll (s : state) (sender : address) (operator : address)
    (approved : bool) : result state :=
  _ ← require (negb (bool_decide (operator = 0))) (ERC721InvalidOperator operator);
  Ok (emit (ApprovalForAll sender operator approved)
           (set_operatorApprovals
              (<[(sender, operator) := approved]> (_operatorApprovals s)) s)).

(** *** The contract's own functions *)

(** The [nonReentrant] modifier around a function body. *)
Definition nonReentrant {A : Type} (s : state) (body : state -> result (A * state))
  : result (A * state) :=
  _ ← require (negb (bool_decide (_status s = ENTERED))) ReentrancyGuardReentrantCall;
  '(a, s1) ← body (set_status ENTERED s);
  Ok (a, set_status NOT_ENTERED s1).

(** [register(tokenURI_)], called by [sender]. *)
Definition register (chain : address -> receiver) (s : state) (sender : address)
    (tokenURI_ : string) : result (uint256 * state) :=
  nonReentrant s (fun s =>
    _ ← require (bool_decide (0 < String.length tokenURI_)%nat) TokenURI_cannot_be_empty;
    (* uint256 agentId = _nextAgentId++;  checked arithmetic *)
    let agentId := _nextAgentId s in
    _ ← require (bool_decide (agentId + 1 <= MAX_UINT256)) (Panic 0x11);
    let s := set_nextAgentId (agentId + 1) s in
    s ← _safeMint chain s sender agentId;
    let s := _setTokenURI s agentId tokenURI_ in
    Ok (agentId, emit (Registered agentId tokenURI_ sender) s)).

(** [setAgentURI(agentId, newURI)], called by [sender]. The disjunction is
    evaluated left to right and [ownerOf] and [getApproved] revert for an id
    that does not exist. *)
Definition setAgentURI (s : state) (sender : address) (agentId : uint256)
    (newURI : string) : result state :=
  owner ← ownerOf s agentId;
  authorized ←
    (if bool_decide (owner = sender) then Ok true
     else
       owner' ← ownerOf s agentId;
       if isApprovedForAll s owner' sender then Ok true
       else
         approved ← getApproved s agentId;
         Ok (bool_decide (approved = sender)));
  _ ← require authorized Not_owner_or_approved;
  _ ← require (bool_decide (0 < String.length newURI)%nat) URI_cannot_be_empty;
  let s := _setTokenURI s agentId newURI in
  Ok (emit (AgentURIUpdated agentId newURI) s).

(** [setMetadata(agentId, key, value)], called by [sender]. *)
Definition setMetadata (s : state) (sender : address) (agentId : uint256)
    (key : string) (value : bytes) : result state :=
  owner ← ownerOf s agentId;
  authorized ←
    (if bool_decide (owner = sender) then Ok true
     else
       owner' ← ownerOf s agentId;
       Ok (isApprovedForAll s owner' sender));
  _ ← require authorized Not_owner_or_approved;
  let s := set_metadata
             (<[agentId := <[key := value]> (default ∅ (_metadata s !! agentId))]>
                (_metadata s)) s in
  Ok (emit (MetadataSet agentId key value) s).

(** [getMetadata(agentId, key)]: a plain read of the nested mapping. *)
Definition getMetadata (s : state) (agentId : uint256) (key : string) : result bytes :=
  Ok (default [] (default ∅ (_metadata s !! agentId) !! key)).

(** [nextAgentId()] *)
Definition nextAgentId (s : state) : result uint256 :=
  Ok (_nextAgentId s).

(** *** Transactions

    A transaction that reverts leaves the storage as it was. *)
Definition commit (s : state) (r : result state) : state :=
  match r with
  | Ok s' => s'
  | Revert _ => s
  end.

Inductive call : Type :=
| Call_register (tokenURI_ : string)
| Call_setAgentURI (agentId : uint256) (newURI : string)
| Call_setMetadata (agentId : uint256) (key : string) (value : bytes)
| Call_transferFrom (from to : address) (tokenId : uint256)
| Call_safeTransferFrom (from to : address) (tokenId : uint256)
| Call_approve (to : address) (tokenId : uint256)
| Call_setApprovalForAll (operator : address) (approved : bool).

Definition execute (chain : address -> receiver) (s : state) (sender : address)
    (c : call) : result state :=
  match c with
  | Call_register uri => '(_, s') ← register chain s sender uri; Ok s'
  | Call_setAgentURI agentId newURI => setAgentURI s sender agentId newURI
  | Call_setMetadata agentId key value => setMetadata s sender agentId key value
  | Call_transferFrom from to tokenId => transferFrom s sender from to tokenId
  | Call_safeTransferFrom from to tokenId => safeTransferFrom chain s sender from to tokenId
  | Call_approve to tokenId => approve s sender to tokenId
  | Call_setApprovalForAll operator approved => setApprovalForAll s sender operator approved
  end.

(** The states the contract can be in: the constructor's, and those after any
    transaction sent by a non-zero account ([msg.sender] is never the zero
    address). The inherited [Ownable] functions only write the contract's
    administrator, which no function of the registry reads. *)
Inductive reachable (chain : address -> receiver) : state -> Prop :=
| reachable_constructor : reachable chain constructor
| reachable_call s sender c :
    reachable chain s -> sender <> 0 ->
    reachable chain (commit s (execute chain s sender c)).

(** *** The access policy of the specification

    [authorize(record, caller, operationClass)]: owner, operator of the owner,
    or single delegate for the pointer class; owner or operator for the
    metadata class. *)
Inductive operationClass : Type :=
| PointerClass
| MetadataClass.

Definition authorize (s : state) (caller : address) (tokenId : uint256)
    (c : operationClass) : bool :=
  let owner := _ownerOf s tokenId in
  match c with
  | PointerClass =>
      bool_decide (owner = caller) || isApprovedForAll s owner caller
      || bool_decide (_getApproved s tokenId = caller)
  | MetadataClass =>
      bool_decide (owner = caller) || isApprovedForAll s owner caller
  end.

(** The callers a safe mint accepts. *)
Definition accepts (chain : address -> receiver) (a : address) : Prop :=
  checkOnERC721Received chain a = Ok tt.

(** What holds of the storage between transactions. *)
Record invariant (s : state) : Prop := mkInvariant {
  inv_status : _status s = NOT_ENTERED;
  inv_positive : 1 <= _nextAgentId s;
  inv_fresh : forall id, _nextAgentId s <= id -> _ownerOf s id = 0;
  inv_pointer : forall id, _ownerOf s id <> 0 -> default "" (_tokenURIs s !! id) <> "";
  inv_metadata : forall id, _ownerOf s id = 0 -> _metadata s !! id = None;
  inv_delegate : forall id, _ownerOf s id = 0 -> _getApproved s id = 0;
  inv_operator : forall operator, isApprovedForAll s 0 operator = false
}.


End Registry.

(** ** Part II. The updater service *)

Module Updater.

Local Open Scope Z_scope.

(** The fields of [utils/config.ts] the service reads. *)
Record Config : Type := mkConfig {
  baseUrl : string;
  rpcUrl : string;
  registryAddress : string;
  agentId : Z;
  updaterPrivateKey : string;
  updateIntervalHours : Z
}.

(** A thrown JavaScript value. *)
Inductive exn : Type :=
| Error (message : string).

(** What the ethers calls resolve to. *)
Record FeeData : Type := mkFeeData { gasPrice : option Z }.
Record TransactionResponse : Type := mkTx { hash : string }.
Record TransactionReceipt : Type := mkReceipt { blockNumber : Z; gasUsed : Z }.

(** The three promises the refresh routine awaits:
    [provider.getFeeData()], [registry.setAgentURI(agentId, newURI, {gasLimit})]
    and [tx.wait()]. *)
Inductive request : Type -> Type :=
| getFeeData : request FeeData
| send_setAgentURI (agentId : Z) (newURI : string) (gasLimit : Z)
    : request TransactionResponse
| wait (tx : TransactionResponse) : request (option TransactionReceipt).

(** A settled promise. *)
Inductive settled (X : Type) : Type :=
| Fulfilled (x : X)
| Rejected (e : exn).
Arguments Fulfilled {X} x.
Arguments Rejected {X} e.

(** Lines written to the console. *)
Inductive line : Type :=
| warn_not_configured
| log_initialized (hours : Z)
| log_wallet
| log_registry (registryAddress : string)
| log_agent_id (agentId : Z)
| log_updating (agentId : Z)
| log_new_uri (newURI : string)
| log_gas_price (wei : Z)
| log_tx_submitted (hash : string)
| log_confirmed (blockNumber gasUsed : option Z)
| error_failed (error : exn).

(** The body of an [async] function: it returns, throws, reads the clock,
    writes a line, or suspends on a promise and goes on with its outcome. *)
Inductive async (A : Type) : Type :=
| Return (a : A)
| Throw (e : exn)
| DateNow (k : Z -> async A)
| Console (l : line) (k : async A)
| Await (X : Type) (p : request X) (k : settled X -> async A).
Arguments Return {A} a.
Arguments Throw {A} e.
Arguments DateNow {A} k.
Arguments Console {A} l k.
Arguments Await {A X} p k.

(** [await p]: the value of a fulfilled promise, a throw for a rejected one. *)
Definition await {A X : Type} (p : request X) (k : X -> async A) : async A :=
  Await p (fun r => match r with
                    | Fulfilled x => k x
                    | Rejected e => Throw e
                    end).

Fixpoint bind {A B : Type} (m : async A) (f : A -> async B) : async B :=
  match m with
  | Return a => f a
  | Throw e => Throw e
  | DateNow k => DateNow (fun t => bind (k t) f)
  | Console l k => Console l (bind k f)
  | Await p k => Await p (fun r => bind (k r) f)
  end.

(** [try { body } catch (error) { handler }] *)
Fixpoint try_catch {A : Type} (body : async A) (handler : exn -> async A) : async A :=
  match body with
  | Return a => Return a
  | Throw e => handler e
  | DateNow k => DateNow (fun t => try_catch (k t) handler)
  | Console l k => Console l (try_catch k handler)
  | Await p k => Await p (fun r => try_catch (k r) handler)
  end.

(** The module-level [let provider], [let wallet], [let registry]:
    [None] is [undefined]. *)
Record module_vars : Type := mkVars {
  provider : option string;
  wallet : option string;
  registry : option string
}.

(** [Math.floor(Date.now() / 1000)] *)
Definition version (now : Z) : Z := now / 1000.

(** [`${config.baseUrl}/erc8004/metadata?v=${version}`] *)
Definition newURI (cfg : Config) (now : Z) : string :=
  baseUrl cfg +:+ "/erc8004/metadata?v=" +:+ pretty (version now).

Definition TypeError_undefined : exn :=
  Error "TypeError: Cannot read properties of undefined".

(** [updateTokenURI()]. A method call on a module variable that is still
    [undefined] throws a [TypeError], inside the [try] block like the rest. *)
Definition updateTokenURI (cfg : Config) (v : module_vars) : async unit :=
  try_catch
    (DateNow (fun now =>
     let newURI := newURI cfg now in
     Console (log_updating (agentId cfg))
    (Console (log_new_uri newURI)
    (match provider v with
     | None => Throw TypeError_undefined
     | Some _ =>
    await getFeeData (fun feeData =>
     Console (log_gas_price (default 0 (gasPrice feeData)))
    (match registry v with
     | None => Throw TypeError_undefined
     | Some _ =>
    await (send_setAgentURI (agentId cfg) newURI 100000) (fun tx =>
     Console (log_tx_submitted (hash tx))
    (await (wait tx) (fun receipt =>
     Console (log_confirmed (blockNumber <$> receipt) (gasUsed <$> receipt))
    (Return tt))))
     end))
     end))))
    (fun error => Console (error_failed error) (Return tt)).

(** [triggerUpdate()] *)
Definition triggerUpdate (cfg : Config) (v : module_vars) : async string :=
  match registry v with
  | None => Return "Updater not configured"
  | Some _ => bind (updateTokenURI cfg v) (fun _ => Return "Update triggered")
  end.

(** *** Running an asynchronous call to its end

    [net] settles every promise the call awaits. *)
Fixpoint complete {A : Type} (net : forall X, request X -> settled X) (now : Z)
    (m : async A) (console : list line) : settled A * list line :=
  match m with
  | Return a => (Fulfilled a, console)
  | Throw e => (Rejected e, console)
  | DateNow k => complete net now (k now) console
  | Console l k => complete net now k (console ++ [l])
  | Await p k => complete net now (k (net _ p)) console
  end.

(** *** The process: timers, suspended calls and the event loop *)

Inductive jsvalue : Type :=
| undefined
| str (s : string).

Inductive trigger : Type :=
| recurring
| warmup
| manual.

(** A call suspended on a promise. *)
Record task : Type := mkTask {
  origin : trigger;
  awaited_type : Type;
  awaited : request awaited_type;
  resume : settled awaited_type -> async jsvalue
}.

Record process : Type := mkProcess {
  vars : module_vars;
  cron : list string;
  timeouts : list Z;
  clock : Z;
  console : list line;
  running : list task;
  finished : list (trigger * settled jsvalue)
}.

Definition boot : process :=
  mkProcess (mkVars None None None) [] [] 0 [] [] [].

(** [initUpdater()] when it returns: the ethers constructors and
    [cron.schedule] are taken to accept their arguments. The paths on which
    one of them throws are in [Startup.initUpdater_outcome]. *)
Definition initUpdater (cfg : Config) (p : process) : process :=
  if bool_decide (updaterPrivateKey cfg = "") || bool_decide (registryAddress cfg = "")
  then mkProcess (vars p) (cron p) (timeouts p) (clock p)
                 (console p ++ [warn_not_configured]) (running p) (finished p)
  else
    let cronExpression := "0 */" +:+ pretty (updateIntervalHours cfg) +:+ " * * *" in
    mkProcess (mkVars (Some (rpcUrl cfg)) (Some (updaterPrivateKey cfg))
                      (Some (registryAddress cfg)))
              (cron p ++ [cronExpression])
              (timeouts p ++ [10000])
              (clock p)
              (console p ++ [log_initialized (updateIntervalHours cfg); log_wallet;
                             log_registry (registryAddress cfg);
                             log_agent_id (agentId cfg)])
              (running p) (finished p).

(** A call runs until its first suspension or its end. *)
Inductive progress (A : Type) : Type :=
| Done (r : settled A)
| Blocked (X : Type) (p : request X) (k : settled X -> async A).
Arguments Done {A} r.
Arguments Blocked {A X} p k.

Fixpoint run_sync {A : Type} (m : async A) (now : Z) (console : list line)
  : progress A * list line :=
  match m with
  | Return a => (Done (Fulfilled a), console)
  | Throw e => (Done (Rejected e), console)
  | DateNow k => run_sync (k now) now console
  | Console l k => run_sync k now (console ++ [l])
  | Await p k => (Blocked p k, console)
  end.

(** The callback of each trigger:
    [async () => { await updateTokenURI(); }] for the cron job,
    [() => updateTokenURI()] for the warm-up timer, and [triggerUpdate()]. *)
Definition callback (cfg : Config) (v : module_vars) (o : trigger) : async jsvalue :=
  match o with
  | recurring => bind (updateTokenURI cfg v) (fun _ => Return undefined)
  | warmup => bind (updateTokenURI cfg v) (fun _ => Return undefined)
  | manual => bind (triggerUpdate cfg v) (fun s => Return (str s))
  end.

Definition spawn (cfg : Config) (o : trigger) (p : process) : process :=
  match run_sync (callback cfg (vars p) o) (clock p) (console p) with
  | (Done r, out) =>
      mkProcess (vars p) (cron p) (timeouts p) (clock p) out
                (running p) (finished p ++ [(o, r)])
  | (Blocked q k, out) =>
      mkProcess (vars p) (cron p) (timeouts p) (clock p) out
                (running p ++ [mkTask o _ q k]) (finished p)
  end.

(** What reaches the event loop. *)
Inductive input : Type :=
| cron_tick (i : nat)
| timeout_fires (i : nat)
| manual_trigger
| settle (i : nat) (net : forall X, request X -> settled X)
| clock_reads (t : Z).

Definition step (cfg : Config) (p : process) (e : input) : process :=
  match e with
  | cron_tick i =>
      match cron p !! i with
      | Some _ => spawn cfg recurring p
      | None => p
      end
  | timeout_fires i =>
      match timeouts p !! i with
      | Some _ =>
          spawn cfg warmup
                (mkProcess (vars p) (cron p) (delete i (timeouts p)) (clock p)
                           (console p) (running p) (finished p))
      | None => p
      end
  | manual_trigger => spawn cfg manual p
  | settle i net =>
      match running p !! i with
      | Some t =>
          match run_sync (resume t (net _ (awaited t))) (clock p) (console p) with
          | (Done r, out) =>
              mkProcess (vars p) (cron p) (timeouts p) (clock p) out
                        (delete i (running p)) (finished p ++ [(origin t, r)])
          | (Blocked q k, out) =>
              mkProcess (vars p) (cron p) (timeouts p) (clock p) out
                        (<[i := mkTask (origin t) _ q k]> (running p)) (finished p)
          end
      | None => p
      end
  | clock_reads t =>
      mkProcess (vars p) (cron p) (timeouts p) t (console p) (running p) (finished p)
  end.

Definition run (cfg : Config) (p : process) (es : list input) : process :=
  foldl (step cfg) p es.

(** A run is in flight from its trigger until its promise settles; its
    submission is in flight once [setAgentURI] was sent. *)
Definition in_flight (p : process) : nat := length (running p).

Definition submission_of (t : task) : option (Z * string) :=
  match awaited t with
  | send_setAgentURI agentId newURI _ => Some (agentId, newURI)
  | _ => None
  end.

(** Every run addresses the one record [config.agentId]. *)
Definition is_submitting (t : task) : bool :=
  match awaited t with
  | getFeeData => false
  | send_setAgentURI _ _ _ => true
  | wait _ => true
  end.

Definition submissions_in_flight (p : process) : nat :=
  length (filter (fun t => is_submitting t = true) (running p)).

(** [initUpdater] went past its configuration check. *)
Definition configured (v : module_vars) : Prop :=
  is_Some (provider v) /\ is_Some (registry v).

(** The input is a trigger that fires: a tick of a scheduled job, a pending
    warm-up timer, or a manual request. *)
Definition fires (p : process) (e : input) : Prop :=
  match e with
  | cron_tick i => is_Some (cron p !! i)
  | timeout_fires i => is_Some (timeouts p !! i)
  | manual_trigger => True
  | settle _ _ => False
  | clock_reads _ => False
  end.

(** Every way the call can go ends in a fulfilled promise whose value
    satisfies [P]: no path throws out of it. *)
Inductive settles_in {A : Type} (P : A -> Prop) : async A -> Prop :=
| settles_return a : P a -> settles_in P (Return a)
| settles_now k : (forall t, settles_in P (k t)) -> settles_in P (DateNow k)
| settles_console l k : settles_in P k -> settles_in P (Console l k)
| settles_await X (q : request X) k :
    (forall r, settles_in P (k r)) -> settles_in P (Await q k).

(** The value each trigger's promise is fulfilled with. *)
Definition outcome_of (v : module_vars) (o : trigger) (a : jsvalue) : Prop :=
  match o with
  | recurring => a = undefined
  | warmup => a = undefined
  | manual =>
      a = str (match registry v with
               | Some _ => "Update triggered"
               | None => "Updater not configured"
               end)
  end.

(** What holds of the process after any inputs: every suspended call can
    only end fulfilled, and every finished call did. *)
Definition sound (p : process) : Prop :=
  Forall (fun t => forall r, settles_in (outcome_of (vars p) (origin t)) (resume t r))
         (running p) /\
  Forall (fun f => exists a, f.2 = Fulfilled a /\ outcome_of (vars p) f.1 a)
         (finished p).

End Updater.

(** ** Fixtures: the accounts and pointers of the contract's test suite, and
    a configured updater *)

Module Fixture.
Import Registry.

(** The test contract itself, which implements [onERC721Received]. *)
Definition this : address := 0x7FA9385bE102ac3EAc297483Dd6233D62b3e1496.
Definition user1 : address := 0x1.
Definition user2 : address := 0x2.
Definition operator : address := 0x3.
(** A contract without the [onERC721Received] hook. *)
Definition bare_contract : address := 0xC0DE.

Definition chain (a : address) : receiver :=
  if bool_decide (a = this) then HookReturns onERC721Received_selector
  else if bool_decide (a = bare_contract) then HookReverts
  else NoCode.

Definition TEST_URI : string := "https://api.example.com/erc8004/metadata".
Definition UPDATED_URI : string := "https://api.example.com/erc8004/metadata?v=123".

(** [registry.register(TEST_URI)] sent by the test contract to a fresh registry. *)
Definition registered : state :=
  commit constructor (execute chain constructor this (Call_register TEST_URI)).

(** ... followed by [registry.approve(user1, 1)]. *)
Definition delegated : state :=
  commit registered (execute chain registered this (Call_approve user1 1)).

(** [registry.transferFrom(address(this), user1, 1)] after the registration. *)
Definition transferred : state :=
  commit registered
         (execute chain registered this (Call_transferFrom this user1 1)).

Definition wallet_value : bytes := [Byte.x12; Byte.x34].

(** [registry.setMetadata(1, "agentWallet", value)] after the registration,
    and then the transfer to [user1]. *)
Definition annotated : state :=
  commit registered
         (execute chain registered this (Call_setMetadata 1 "agentWallet" wallet_value)).
Definition annotated_transferred : state :=
  commit annotated (execute chain annotated this (Call_transferFrom this user1 1)).

(** A configured updater for agent 1, just initialised: a 20-byte registry
    address, a 32-byte private key and a refresh every six hours. *)
Definition cfg : Updater.Config :=
  Updater.mkConfig "https://api.example.com" "https://mainnet.base.org"
                   "0x2031C13F4927E3f97Eba0066BA330927A77EB540" 1
                   "0x0123456789abcdef0123456789abcdef0123456789abcdef0123456789abcdef" 6.
Definition started : Updater.process := Updater.initUpdater cfg Updater.boot.

(** A network on which every request succeeds, and one on which every
    request fails. *)
Definition net_ok (X : Type) (q : Updater.request X) : Updater.settled X :=
  match q in Updater.request X return Updater.settled X with
  | Updater.getFeeData => Updater.Fulfilled (Updater.mkFeeData (Some 5%Z))
  | Updater.send_setAgentURI _ _ _ => Updater.Fulfilled (Updater.mkTx "0xhash")
  | Updater.wait _ => Updater.Fulfilled (Some (Updater.mkReceipt 10 20))
  end.
Definition net_down (X : Type) (q : Updater.request X) : Updater.settled X :=
  Updater.Rejected (Updater.Error "network down").

(** A cron tick and a manual trigger that overlap: both runs get their fee
    data before either has finished. *)
Definition overlap : Updater.process :=
  Updater.run cfg started
    [Updater.clock_reads 1700000000000%Z; Updater.cron_tick 0; Updater.manual_trigger;
     Updater.settle 0 net_ok; Updater.settle 1 net_ok].

End Fixture.

(** ** Part II-b. The server entry point, the card helpers and the stats cache *)

From Stdlib Require Import Ascii.

(** What a run asks of the network, in order. *)
Module Trace.
Import Updater.
Local Open Scope Z_scope.

Inductive asked : Type :=
| asked_getFeeData
| asked_setAgentURI (agentId : Z) (newURI : string) (gasLimit : Z)
| asked_wait (tx : TransactionResponse).

Definition label {X : Type} (q : request X) : asked :=
  match q with
  | getFeeData => asked_getFeeData
  | send_setAgentURI agentId newURI gasLimit => asked_setAgentURI agentId newURI gasLimit
  | wait tx => asked_wait tx
  end.

(** The requests a call makes when it is run to its end against [net]. *)
Fixpoint requests {A : Type} (net : forall X, request X -> settled X) (now : Z)
    (m : async A) : list asked :=
  match m with
  | Return _ => []
  | Throw _ => []
  | DateNow k => requests net now (k now)
  | Console _ k => requests net now k
  | Await q k => label q :: requests net now (k (net _ q))
  end.

(** Every request the call can ever make satisfies [P]. *)
Inductive asks_only {A : Type} (P : asked -> Prop) : async A -> Prop :=
| asks_return a : asks_only P (Return a)
| asks_throw e : asks_only P (Throw e)
| asks_now k : (forall t, asks_only P (k t)) -> asks_only P (DateNow k)
| asks_console l k : asks_only P k -> asks_only P (Console l k)
| asks_await X (q : request X) k :
    P (label q) -> (forall r, asks_only P (k r)) -> asks_only P (Await q k).

(** The requests of the refresh routine: the fee query, a [setAgentURI] for
    [config.agentId] capped at 100000 gas whose pointer is the base pointer
    with a version, and the wait for a transaction. *)
Definition well_formed (cfg : Config) (a : asked) : Prop :=
  match a with
  | asked_getFeeData => True
  | asked_setAgentURI agentId uri gasLimit =>
      agentId = Updater.agentId cfg /\ gasLimit = 100000 /\ exists t, uri = newURI cfg t
  | asked_wait _ => True
  end.

#[global] Instance trigger_eq_dec : EqDecision trigger.
Proof. solve_decision. Defined.

(** The runs a trigger of kind [o] has started: those suspended and those
    finished. *)
Definition started_by (o : trigger) (p : process) : nat :=
  length (filter (fun t => origin t = o) (running p))
  + length (filter (fun f => f.1 = o) (finished p)).

(** What every suspended run of a process asks and will ask. *)
Definition disciplined (cfg : Config) (p : process) : Prop :=
  Forall (fun t => well_formed cfg (label (awaited t))
                   /\ forall r, asks_only (well_formed cfg) (resume t r))
         (running p).

(** A process whose updater was left unconfigured: nothing scheduled, nothing
    running, one warning logged, and only manual triggers answered. *)
Definition idle (p : process) : Prop :=
  registry (vars p) = None /\ cron p = [] /\ timeouts p = [] /\ running p = [] /\
  console p = [warn_not_configured] /\
  Forall (fun f => f = (manual, Fulfilled (str "Updater not configured"))) (finished p).

End Trace.

(** [initUpdater()] with the statements that can throw. *)
Module Startup.
Import Updater.
Local Open Scope Z_scope.

(** What the libraries make of their arguments: [new ethers.JsonRpcProvider],
    [new ethers.Wallet], [new ethers.Contract] and [cron.schedule] check what
    they are given and throw on a value they do not accept ([None] is a normal
    return). Their code is not part of the repository, so which values they
    accept is left open. *)
Record library : Type := mkLibrary {
  JsonRpcProvider : string -> option exn;
  Wallet : string -> option exn;
  Contract : string -> option exn;
  schedule : string -> option exn
}.

(** A library that accepts every argument. *)
Definition lenient : library :=
  mkLibrary (fun _ => None) (fun _ => None) (fun _ => None) (fun _ => None).

(** The process [initUpdater()] leaves, and what it threw, if it did. The
    function has no [try]: a throw ends it at that statement, so what was
    assigned and logged before stays, and nothing after it happens. In
    particular [cron.schedule] comes before [setTimeout]. *)
Definition initUpdater_outcome (lib : library) (cfg : Config) (p : process)
  : process * option exn :=
  if bool_decide (updaterPrivateKey cfg = "") || bool_decide (registryAddress cfg = "")
  then (mkProcess (vars p) (cron p) (timeouts p) (clock p)
                  (console p ++ [warn_not_configured]) (running p) (finished p),
        None)
  else
    (* provider = new ethers.JsonRpcProvider(config.rpcUrl); *)
    match JsonRpcProvider lib (rpcUrl cfg) with
    | Some e => (p, Some e)
    | None =>
    let v1 := mkVars (Some (rpcUrl cfg)) (wallet (vars p)) (registry (vars p)) in
    let p1 := mkProcess v1 (cron p) (timeouts p) (clock p) (console p)
                        (running p) (finished p) in
    (* wallet = new ethers.Wallet(config.updaterPrivateKey, provider); *)
    match Wallet lib (updaterPrivateKey cfg) with
    | Some e => (p1, Some e)
    | None =>
    let v2 := mkVars (provider v1) (Some (updaterPrivateKey cfg)) (registry v1) in
    let p2 := mkProcess v2 (cron p) (timeouts p) (clock p) (console p)
                        (running p) (finished p) in
    (* registry = new ethers.Contract(config.registryAddress, REGISTRY_ABI, wallet); *)
    match Contract lib (registryAddress cfg) with
    | Some e => (p2, Some e)
    | None =>
    let v3 := mkVars (provider v2) (wallet v2) (Some (registryAddress cfg)) in
    let out := console p ++ [log_initialized (updateIntervalHours cfg); log_wallet;
                             log_registry (registryAddress cfg);
                             log_agent_id (agentId cfg)] in
    let p3 := mkProcess v3 (cron p) (timeouts p) (clock p) out
                        (running p) (finished p) in
    let cronExpression := "0 */" +:+ pretty (updateIntervalHours cfg) +:+ " * * *" in
    (* cron.schedule(cronExpression, ...); *)
    match schedule lib cronExpression with
    | Some e => (p3, Some e)
    | None =>
    (* setTimeout(() => updateTokenURI(), 10000); *)
    (mkProcess v3 (cron p ++ [cronExpression]) (timeouts p ++ [10000]) (clock p) out
               (running p) (finished p),
     None)
    end end end end.

(** A library that accepts everything but the private key. *)
Definition rejects_key : library :=
  mkLibrary (fun _ => None) (fun _ => Some (Error "invalid private key"))
            (fun _ => None) (fun _ => None).

(** A library that accepts everything but the cron expression. *)
Definition rejects_schedule : library :=
  mkLibrary (fun _ => None) (fun _ => None) (fun _ => None)
            (fun expression => Some (Error (expression +:+ " is a invalid expression"))).

End Startup.

(** [src/index.ts]: the admin route that calls [triggerUpdate]. *)
Module Server.
Import Updater.
Local Open Scope Z_scope.

(** The two places a request can carry the key: the [x-api-key] header and
    the [apiKey] query parameter ([None] is [undefined]). *)
Record Request : Type := mkRequest {
  header_x_api_key : option string;
  query_apiKey : option string
}.

Inductive body : Type :=
| status_ok (result : string)
| error (message : string).

Record Response : Type := mkResponse {
  status : Z;
  json : body
}.

(** [a || b] on values that are a string or [undefined]: the empty string is
    falsy. *)
Definition or_else (a b : option string) : option string :=
  match a with
  | Some s => if bool_decide (s = "") then b else Some s
  | None => b
  end.

Inductive middleware : Type :=
| responds (r : Response)
| next.

(** [adminAuth] *)
Definition adminAuth (adminApiKey : string) (req : Request) : middleware :=
  let apiKey := or_else (header_x_api_key req) (query_apiKey req) in
  if bool_decide (adminApiKey = "") then
    responds (mkResponse 503 (error "Admin API not configured"))
  else if negb (bool_decide (apiKey = Some adminApiKey)) then
    responds (mkResponse 401 (error "Unauthorized"))
  else next.

(** [app.post("/erc8004/admin/force-update", adminAuth, async (req, res) => ...)] *)
Definition force_update (cfg : Config) (v : module_vars) (adminApiKey : string)
    (req : Request) : async Response :=
  match adminAuth adminApiKey req with
  | responds r => Return r
  | next =>
      try_catch
        (bind (triggerUpdate cfg v)
              (fun result => Return (mkResponse 200 (status_ok result))))
        (fun _ => Return (mkResponse 500 (error "Update failed")))
  end.

End Server.

(** [src/services/svgGenerator.ts]: the text helpers of the agent card. A
    string is the sequence of its code units. *)
Module Svg.

(** [str.replace(/c/g, by)] for a one-character pattern and a replacement
    without [$]. *)
Fixpoint replace_all (c : ascii) (by_ : string) (str : string) : string :=
  match str with
  | EmptyString => EmptyString
  | String a rest =>
      if bool_decide (a = c) then by_ +:+ replace_all c by_ rest
      else String a (replace_all c by_ rest)
  end.

Definition amp : ascii := "&"%char.
Definition lt : ascii := "<"%char.
Definition gt : ascii := ">"%char.
Definition quot : ascii := "034"%char.
Definition apos : ascii := "'"%char.

(** [escapeXml] *)
Definition escapeXml (str : string) : string :=
  replace_all apos "&apos;"
    (replace_all quot "&quot;"
       (replace_all gt "&gt;"
          (replace_all lt "&lt;"
             (replace_all amp "&amp;" str)))).

(** The entity of one character, the reading of [escapeXml] character by
    character. *)
Definition entity (a : ascii) : string :=
  if bool_decide (a = amp) then "&amp;"
  else if bool_decide (a = lt) then "&lt;"
  else if bool_decide (a = gt) then "&gt;"
  else if bool_decide (a = quot) then "&quot;"
  else if bool_decide (a = apos) then "&apos;"
  else String a EmptyString.

Fixpoint escape_each (str : string) : string :=
  match str with
  | EmptyString => EmptyString
  | String a rest => entity a +:+ escape_each rest
  end.

Fixpoint occurs (c : ascii) (str : string) : bool :=
  match str with
  | EmptyString => false
  | String a rest => bool_decide (a = c) || occurs c rest
  end.

(** [truncateAddress] *)
Definition truncateAddress (address : string) : string :=
  if bool_decide (address = "") || bool_decide (String.length address < 10)%nat then
    (if bool_decide (address = "") then "Not Set" else address)
  else
    String.substring 0 6 address +:+ "..."
    +:+ String.substring (String.length address - 4) 4 address.

End Svg.

(** [src/services/statsService.ts]: the protocol list and the cache. *)
Module Stats.
Local Open Scope Z_scope.

Definition default_protocols : list string := ["Morpho"; "Aerodrome"; "Merkl"].

Definition protocolPatterns : list string :=
  ["Morpho"; "Aerodrome"; "Merkl"; "Aave"; "Compound"; "Uniswap"].

(** [s.includes(sub)] *)
Fixpoint includes (s sub : string) : bool :=
  String.prefix sub s
  || match s with
     | EmptyString => false
     | String _ rest => includes rest sub
     end.

(** [found.includes(protocol)] on an array of strings. *)
Definition array_includes (found : list string) (protocol : string) : bool :=
  bool_decide (protocol ∈ found).

Section WithBuiltins.

(** [String.prototype.toLowerCase], [formatUsd] and [formatPercent] (locale
    and floating-point formatting) and the numbers of the API are taken as
    given. *)
Variable toLowerCase : string -> string.
Variable number : Type.
Variable zero : number.
Variable formatUsd : number -> string.
Variable formatPercent : number -> string.

(** [parseProtocols] *)
Definition parseProtocols (lendingPoolString : option string) : list string :=
  match lendingPoolString with
  | None => default_protocols
  | Some s =>
      if bool_decide (s = "") then default_protocols
      else
        let found :=
          foldl (fun found protocol =>
                   if includes (toLowerCase s) (toLowerCase protocol)
                      && negb (array_includes found protocol)
                   then found ++ [protocol] else found)
                [] protocolPatterns in
        if bool_decide (0 < length found)%nat then found else default_protocols
  end.

Record ApiResponse : Type := mkApiResponse {
  totalAUM : option number;
  totalActiveVaults : option number;
  activeVaults24h : option number;
  totalTransactions : option number;
  transactions24h : option number;
  avgAPY : option number;
  totalVolume : option number;
  currentLendingPool : option string;
  timestamp : option string
}.

Record AgentStats : Type := mkAgentStats {
  tvl : string;
  totalVaults : number;
  activeVaults : number;
  totalRebalances : number;
  last24hRebalances : number;
  avgApy : string;
  totalDeposited : string;
  totalWithdrawn : string;
  protocolsUsed : list string;
  lastRebalanceAt : string;
  uptimePercent : string;
  lastUpdated : string
}.

(** The em dash the service prints for a figure it does not have. *)
Definition em_dash : string :=
  String "226"%char (String "128"%char (String "148"%char EmptyString)).

(** [getFallbackStats]; [iso] is [new Date().toISOString()]. *)
Definition getFallbackStats (iso : string) : AgentStats :=
  mkAgentStats em_dash zero zero zero zero em_dash em_dash em_dash
               default_protocols em_dash em_dash iso.

(** The module-level [cachedStats] and [cacheTimestamp]. *)
Record cache : Type := mkCache {
  cachedStats : option AgentStats;
  cacheTimestamp : Z
}.

Definition empty_cache : cache := mkCache None 0.

Definition CACHE_TTL_MS : Z := 5 * 60 * 1000.

(** The outcome of [axios.get(config.statsApiUrl, { timeout: 10000 })]. *)
Inductive fetched : Type :=
| response (data : ApiResponse)
| failed.

(** [getStats()], called when [Date.now()] is [now]. The request is only
    made when the cache is empty or stale; [get] is how it ends and [iso] the
    time string read once it has. *)
Definition getStats (c : cache) (now : Z) (get : fetched) (iso : string)
  : AgentStats * cache :=
  match cachedStats c, bool_decide (now - cacheTimestamp c < CACHE_TTL_MS) with
  | Some stats, true => (stats, c)
  | _, _ =>
      match get with
      | response data =>
          let stats :=
            mkAgentStats
              (formatUsd (default zero (totalAUM data)))
              (default zero (totalActiveVaults data))
              (default zero (activeVaults24h data))
              (default zero (totalTransactions data))
              (default zero (transactions24h data))
              (formatPercent (default zero (avgAPY data)))
              (formatUsd (default zero (totalVolume data)))
              em_dash
              (parseProtocols (currentLendingPool data))
              (default iso (timestamp data))
              "99.9%"
              iso in
          (stats, mkCache (Some stats) now)
      | failed =>
          match cachedStats c with
          | Some stats => (stats, c)
          | None => (getFallbackStats iso, c)
          end
      end
  end.

End WithBuiltins.

End Stats.

(** ** Part III. Properties of the registry *)

Section RegistryFacts.
Import Registry.

Ltac fields :=
  cbn [_owners _balances _tokenApprovals _operatorApprovals _tokenURIs _status
       _nextAgentId _metadata events set_owners set_balances set_tokenApprovals
       set_operatorApprovals set_tokenURIs set_status set_nextAgentId set_metadata
       emit fst snd] in *.

Lemma bind_Ok {A B : Type} (m : result A) (f : A -> result B) (b : B) :
  (m ≫= f) = Ok b -> exists a, m = Ok a /\ f a = Ok b.
Proof. destruct m as [a|e]; [eauto | discriminate]. Qed.

Lemma require_Ok (b : bool) (e : error) : require b e = Ok tt -> b = true.
Proof. by destruct b. Qed.

Lemma nonempty_length (u : string) : (0 < String.length u)%nat <-> u <> "".
Proof. destruct u; simpl; split; intros; (done || lia). Qed.

Lemma bool_decide_nonempty (u : string) :
  bool_decide (0 < String.length u)%nat = negb (bool_decide (u = "")).
Proof.
  destruct (decide (u = "")) as [->|Hu]; [done|].
  rewrite (bool_decide_eq_false_2 _ Hu). apply bool_decide_eq_true_2.
  by apply nonempty_length.
Qed.

Lemma _approve_clear s tokenId :
  _approve s 0 tokenId 0 false
  = Ok (set_tokenApprovals (<[tokenId := 0]> (_tokenApprovals s)) s).
Proof. reflexivity. Qed.

Lemma _requireOwned_eq s tokenId :
  _requireOwned s tokenId
  = if bool_decide (_ownerOf s tokenId = 0) then Revert (ERC721NonexistentToken tokenId)
    else Ok (_ownerOf s tokenId).
Proof. reflexivity. Qed.

Lemma ownerOf_Ok s tokenId owner :
  ownerOf s tokenId = Ok owner <-> _ownerOf s tokenId = owner /\ owner <> 0.
Proof.
  unfold ownerOf. rewrite _requireOwned_eq. case_bool_decide; split.
  - discriminate.
  - intros [? ?]; congruence.
  - intros [= <-]; done.
  - intros [-> _]; done.
Qed.

Lemma getApproved_Ok s tokenId a :
  getApproved s tokenId = Ok a <-> _ownerOf s tokenId <> 0 /\ _getApproved s tokenId = a.
Proof.
  unfold getApproved. rewrite _requireOwned_eq. case_bool_decide; simpl; split.
  - discriminate.
  - intros [? ?]; done.
  - intros [= <-]; done.
  - intros [_ ->]; done.
Qed.

(** The storage fields that [_update] writes. *)
Lemma _update_fields s to tokenId auth from s' :
  _update s to tokenId auth = Ok (from, s') ->
  from = _ownerOf s tokenId /\
  (auth <> 0 -> _isAuthorized s from auth tokenId = true) /\
  _owners s' = <[tokenId := to]> (_owners s) /\
  _tokenApprovals s' = (if bool_decide (from = 0) then _tokenApprovals s
                        else <[tokenId := 0]> (_tokenApprovals s)) /\
  _operatorApprovals s' = _operatorApprovals s /\
  _tokenURIs s' = _tokenURIs s /\
  _status s' = _status s /\
  _nextAgentId s' = _nextAgentId s /\
  _metadata s' = _metadata s.
Proof.
  unfold _update. intros H.
  apply bind_Ok in H as [[] [Hauth H]].
  apply bind_Ok in H as [s1 [Hs1 H]].
  injection H as <- <-.
  split; [done|]. split.
  { intros Hne. rewrite bool_decide_eq_false_2 in Hauth by done.
    unfold _checkAuthorized in Hauth.
    destruct (_isAuthorized s _ auth tokenId); [done|].
    by destruct (bool_decide _). }
  destruct (bool_decide (_ownerOf s tokenId = 0)).
  - injection Hs1 as <-. destruct (bool_decide (to = 0)); fields; done.
  - rewrite _approve_clear in Hs1. injection Hs1 as <-.
    destruct (bool_decide (to = 0)); fields; done.
Qed.

(** [_update] succeeds for a caller it does not have to check. *)
Lemma _update_unchecked s to tokenId :
  exists s', _update s to tokenId 0 = Ok (_ownerOf s tokenId, s').
Proof.
  unfold _update. rewrite (bool_decide_eq_true_2 (0 = 0)) by done.
  unfold mbind, result_bind.
  destruct (bool_decide (_ownerOf s tokenId = 0)); eauto.
Qed.

Lemma _update_authorized s to tokenId auth :
  _isAuthorized s (_ownerOf s tokenId) auth tokenId = true ->
  exists s', _update s to tokenId auth = Ok (_ownerOf s tokenId, s').
Proof.
  intros Hauth. unfold _update, _checkAuthorized. rewrite Hauth.
  unfold mbind, result_bind.
  destruct (bool_decide (auth = 0));
    destruct (bool_decide (_ownerOf s tokenId = 0)); eauto.
Qed.

Lemma transferFrom_fields s sender from to tokenId s' :
  transferFrom s sender from to tokenId = Ok s' ->
  to <> 0 /\ from = _ownerOf s tokenId /\
  (sender <> 0 -> _isAuthorized s from sender tokenId = true) /\
  _owners s' = <[tokenId := to]> (_owners s) /\
  _tokenApprovals s' = (if bool_decide (from = 0) then _tokenApprovals s
                        else <[tokenId := 0]> (_tokenApprovals s)) /\
  _operatorApprovals s' = _operatorApprovals s /\
  _tokenURIs s' = _tokenURIs s /\
  _status s' = _status s /\
  _nextAgentId s' = _nextAgentId s /\
  _metadata s' = _metadata s.
Proof.
  unfold transferFrom. intros H.
  apply bind_Ok in H as [[] [Hto H]]. apply require_Ok in Hto.
  apply bind_Ok in H as [[prev s1] [Hup H]].
  apply bind_Ok in H as [[] [Hfrom H]]. apply require_Ok in Hfrom.
  injection H as <-.
  apply negb_true_iff, bool_decide_eq_false in Hto.
  apply bool_decide_eq_true in Hfrom. subst prev.
  apply _update_fields in Hup. tauto.
Qed.

Lemma safeTransferFrom_Ok chain s sender from to tokenId s' :
  safeTransferFrom chain s sender from to tokenId = Ok s' ->
  transferFrom s sender from to tokenId = Ok s'.
Proof.
  unfold safeTransferFrom. intros H.
  apply bind_Ok in H as [s1 [H1 H]]. apply bind_Ok in H as [[] [_ H]].
  by injection H as <-.
Qed.

Lemma approve_fields s sender to tokenId s' :
  approve s sender to tokenId = Ok s' ->
  _ownerOf s tokenId <> 0 /\
  _owners s' = _owners s /\
  _tokenApprovals s' = <[tokenId := to]> (_tokenApprovals s) /\
  _operatorApprovals s' = _operatorApprovals s /\
  _tokenURIs s' = _tokenURIs s /\
  _status s' = _status s /\
  _nextAgentId s' = _nextAgentId s /\
  _metadata s' = _metadata s.
Proof.
  unfold approve, _approve. rewrite orb_true_l. intros H.
  apply bind_Ok in H as [s1 [H1 H]]. injection H as <-.
  apply bind_Ok in H1 as [owner [Howner H1]].
  apply bind_Ok in H1 as [[] [_ H1]]. injection H1 as <-.
  apply ownerOf_Ok in Howner as [Howner Hne]. subst owner.
  fields. done.
Qed.

Lemma setApprovalForAll_fields s sender operator approved s' :
  setApprovalForAll s sender operator approved = Ok s' ->
  _owners s' = _owners s /\
  _tokenApprovals s' = _tokenApprovals s /\
  _operatorApprovals s' = <[(sender, operator) := approved]> (_operatorApprovals s) /\
  _tokenURIs s' = _tokenURIs s /\
  _status s' = _status s /\
  _nextAgentId s' = _nextAgentId s /\
  _metadata s' = _metadata s.
Proof.
  unfold setApprovalForAll. intros H.
  apply bind_Ok in H as [[] [_ H]]. injection H as <-. fields. done.
Qed.

(** [register] as one equation: the guard, the empty-pointer check, the
    counter overflow, the mint and the acceptance check, in this order. *)
Lemma register_Ok chain s sender uri :
  _status s <> ENTERED -> uri <> "" -> _nextAgentId s + 1 <= MAX_UINT256 ->
  sender <> 0 -> _ownerOf s (_nextAgentId s) = 0 -> accepts chain sender ->
  exists s', register chain s sender uri = Ok (_nextAgentId s, s').
Proof.
  intros Hst Huri Hmax Hsender Hfresh Hacc.
  unfold register, nonReentrant.
  rewrite (bool_decide_eq_false_2 _ Hst), bool_decide_nonempty,
    (bool_decide_eq_false_2 _ Huri). fields.
  rewrite (bool_decide_eq_true_2 _ Hmax).
  unfold _safeMint, _mint. rewrite (bool_decide_eq_false_2 _ Hsender).
  destruct (_update_unchecked (set_nextAgentId (_nextAgentId s + 1) (set_status ENTERED s))
              sender (_nextAgentId s)) as [s1 Hs1].
  change (_ownerOf (set_nextAgentId (_nextAgentId s + 1) (set_status ENTERED s))
            (_nextAgentId s)) with (_ownerOf s (_nextAgentId s)) in Hs1.
  rewrite Hfresh in Hs1.
  unfold mbind, result_bind, require; cbn [negb].
  rewrite Hs1. rewrite (bool_decide_eq_true_2 (0 = 0)) by done.
  unfold accepts in Hacc. rewrite Hacc. eauto.
Qed.

Lemma register_fields chain s sender uri agentId s' :
  register chain s sender uri = Ok (agentId, s') ->
  agentId = _nextAgentId s /\ uri <> "" /\ sender <> 0 /\
  _ownerOf s agentId = 0 /\ accepts chain sender /\
  _owners s' = <[agentId := sender]> (_owners s) /\
  _tokenApprovals s' = _tokenApprovals s /\
  _operatorApprovals s' = _operatorApprovals s /\
  _tokenURIs s' = <[agentId := uri]> (_tokenURIs s) /\
  _status s' = NOT_ENTERED /\
  _nextAgentId s' = agentId + 1 /\
  _metadata s' = _metadata s.
Proof.
  unfold register, nonReentrant. intros H.
  apply bind_Ok in H as [[] [_ H]].
  apply bind_Ok in H as [[a s1] [H1 H]]. injection H as <- <-.
  apply bind_Ok in H1 as [[] [Huri H1]]. apply require_Ok in Huri.
  rewrite bool_decide_nonempty in Huri.
  apply negb_true_iff, bool_decide_eq_false in Huri.
  apply bind_Ok in H1 as [[] [_ H1]].
  apply bind_Ok in H1 as [s2 [Hmint H1]]. injection H1 as <- <-.
  unfold _safeMint in Hmint.
  apply bind_Ok in Hmint as [s3 [Hmint H3]].
  apply bind_Ok in H3 as [[] [Hacc H3]]. injection H3 as <-.
  unfold _mint in Hmint.
  apply bind_Ok in Hmint as [[] [Hsender Hmint]]. apply require_Ok in Hsender.
  apply negb_true_iff, bool_decide_eq_false in Hsender.
  apply bind_Ok in Hmint as [[prev s4] [Hup Hmint]].
  apply bind_Ok in Hmint as [[] [Hprev Hmint]]. apply require_Ok in Hprev.
  apply bool_decide_eq_true in Hprev. injection Hmint as <-. subst prev.
  apply _update_fields in Hup as (Hfrom & _ & Ho & Ha & Hop & Hu & Hs & Hn & Hm).
  rewrite (bool_decide_eq_true_2 (0 = 0)) in Ha by done.
  unfold _setTokenURI. fields.
  change (_ownerOf _ (_nextAgentId s)) with (_ownerOf s (_nextAgentId s)) in Hfrom.
  rewrite Ho, Ha, Hop, Hu, Hn, Hm. done.
Qed.

(** [setAgentURI] as one equation: existence, capability, then the
    empty-pointer check. *)
Lemma setAgentURI_eq s sender agentId newURI :
  setAgentURI s sender agentId newURI =
  if bool_decide (_ownerOf s agentId = 0) then Revert (ERC721NonexistentToken agentId)
  else if negb (authorize s sender agentId PointerClass) then Revert Not_owner_or_approved
  else if bool_decide (newURI = "") then Revert URI_cannot_be_empty
  else Ok (emit (AgentURIUpdated agentId newURI) (_setTokenURI s agentId newURI)).
Proof.
  unfold setAgentURI, authorize, getApproved, ownerOf.
  rewrite _requireOwned_eq, bool_decide_nonempty.
  unfold mbind, result_bind, require.
  destruct (bool_decide (_ownerOf s agentId = 0)); [done|].
  destruct (bool_decide (_ownerOf s agentId = sender)); cbn [orb negb].
  { by destruct (bool_decide (newURI = "")). }
  destruct (isApprovedForAll s (_ownerOf s agentId) sender); cbn [orb negb].
  { by destruct (bool_decide (newURI = "")). }
  destruct (bool_decide (_getApproved s agentId = sender)); cbn [negb]; [|done].
  by destruct (bool_decide (newURI = "")).
Qed.

(** [setMetadata] as one equation: existence, then capability. *)
Lemma setMetadata_eq s sender agentId key value :
  setMetadata s sender agentId key value =
  if bool_decide (_ownerOf s agentId = 0) then Revert (ERC721NonexistentToken agentId)
  else if negb (authorize s sender agentId MetadataClass) then Revert Not_owner_or_approved
  else Ok (emit (MetadataSet agentId key value)
             (set_metadata
                (<[agentId := <[key := value]> (default ∅ (_metadata s !! agentId))]>
                   (_metadata s)) s)).
Proof.
  unfold setMetadata, authorize, ownerOf.
  rewrite _requireOwned_eq.
  unfold mbind, result_bind, require.
  destruct (bool_decide (_ownerOf s agentId = 0)); [done|].
  destruct (bool_decide (_ownerOf s agentId = sender)); cbn [orb negb]; [done|].
  by destruct (isApprovedForAll s (_ownerOf s agentId) sender).
Qed.

Lemma _ownerOf_insert s s' tokenId to id :
  _owners s' = <[tokenId := to]> (_owners s) ->
  _ownerOf s' id = if decide (tokenId = id) then to else _ownerOf s id.
Proof.
  intros H. unfold _ownerOf. rewrite H, lookup_insert. by case_decide.
Qed.

Lemma _ownerOf_same s s' id : _owners s' = _owners s -> _ownerOf s' id = _ownerOf s id.
Proof. intros H. unfold _ownerOf. by rewrite H. Qed.

Lemma invariant_constructor : invariant constructor.
Proof. split; done. Qed.

(** A transfer by a non-zero caller only moves an existing record. *)
Lemma transfer_existing s sender from tokenId :
  invariant s -> sender <> 0 -> from = _ownerOf s tokenId ->
  _isAuthorized s from sender tokenId = true -> from <> 0.
Proof.
  intros Hinv Hsender -> Hauth Hzero. unfold _isAuthorized in Hauth.
  rewrite Hzero, (inv_operator s Hinv), (inv_delegate s Hinv _ Hzero) in Hauth.
  rewrite (bool_decide_eq_false_2 (sender = 0)) in Hauth by done.
  rewrite (bool_decide_eq_false_2 (0 = sender)) in Hauth by done.
  done.
Qed.

Lemma invariant_transferFrom s sender from to tokenId s' :
  invariant s -> sender <> 0 ->
  transferFrom s sender from to tokenId = Ok s' -> invariant s'.
Proof.
  intros Hinv Hsender H.
  apply transferFrom_fields in H as (Hto & Hfrom & Hauth & Ho & Ha & Hop & Hu & Hs & Hn & Hm).
  pose proof (transfer_existing s sender from tokenId Hinv Hsender Hfrom (Hauth Hsender))
    as Hex.
  rewrite (bool_decide_eq_false_2 _ Hex) in Ha.
  assert (Hsame : forall id, _ownerOf s' id = 0 -> _ownerOf s id = 0 /\ id <> tokenId).
  { intros id. rewrite (_ownerOf_insert s s' tokenId to id Ho).
    case_decide; [done|]. done. }
  destruct Hinv as [I1 I2 I3 I4 I5 I6 I7]. split.
  - by rewrite Hs.
  - by rewrite Hn.
  - intros id. rewrite Hn, (_ownerOf_insert s s' tokenId to id Ho).
    case_decide as Heq; [|by auto]. subst id. intros Hge.
    specialize (I3 _ Hge). congruence.
  - intros id. rewrite Hu, (_ownerOf_insert s s' tokenId to id Ho).
    case_decide as Heq; [|by auto]. subst id. intros _. apply I4. congruence.
  - intros id Hz. rewrite Hm. apply I5. by apply Hsame.
  - intros id Hz. destruct (Hsame id Hz) as [Hz' Hne].
    unfold _getApproved. rewrite Ha, lookup_insert_ne by done. by apply I6.
  - intros operator. unfold isApprovedForAll. rewrite Hop. apply I7.
Qed.

Lemma invariant_execute chain s sender c :
  invariant s -> sender <> 0 -> invariant (commit s (execute chain s sender c)).
Proof.
  intros Hinv Hsender.
  destruct (execute chain s sender c) as [s'|e] eqn:Hexec; [|done]. cbn [commit].
  destruct c as [uri|agentId newURI|agentId key value|from to tokenId|from to tokenId
                |to tokenId|operator approved]; cbn [execute] in Hexec.
  - (* register *)
    apply bind_Ok in Hexec as [[agentId s1] [Hreg Hexec]]. injection Hexec as ->.
    apply register_fields in Hreg
      as (-> & Huri & _ & Hfresh & _ & Ho & Ha & Hop & Hu & Hs & Hn & Hm).
    destruct Hinv as [I1 I2 I3 I4 I5 I6 I7]. split.
    + done.
    + rewrite Hn. lia.
    + intros id. rewrite Hn, (_ownerOf_insert s s' _ sender id Ho).
      case_decide; [lia|]. intros Hge. apply I3. lia.
    + intros id. rewrite Hu, (_ownerOf_insert s s' _ sender id Ho), lookup_insert.
      case_decide; [done|]. apply I4.
    + intros id. rewrite Hm, (_ownerOf_insert s s' _ sender id Ho).
      case_decide; [done|]. apply I5.
    + intros id. rewrite (_ownerOf_insert s s' _ sender id Ho).
      case_decide; [done|]. unfold _getApproved. rewrite Ha. apply I6.
    + intros operator. unfold isApprovedForAll. rewrite Hop. apply I7.
  - (* setAgentURI *)
    rewrite setAgentURI_eq in Hexec.
    destruct (bool_decide (_ownerOf s agentId = 0)); [done|].
    destruct (negb (authorize s sender agentId PointerClass)); [done|].
    case_bool_decide as Huri; [done|]. injection Hexec as <-.
    destruct Hinv as [I1 I2 I3 I4 I5 I6 I7]. split; try done.
    intros id Hid. unfold _setTokenURI. fields. rewrite lookup_insert.
    case_decide; [done|]. by apply I4.
  - (* setMetadata *)
    rewrite setMetadata_eq in Hexec.
    case_bool_decide as Hex; [done|].
    destruct (negb (authorize s sender agentId MetadataClass)); [done|].
    injection Hexec as <-.
    destruct Hinv as [I1 I2 I3 I4 I5 I6 I7]. split; try done.
    intros id Hid. fields. rewrite lookup_insert_ne; [by apply I5|].
    intros ->. done.
  - (* transferFrom *)
    by eapply invariant_transferFrom.
  - (* safeTransferFrom *)
    apply safeTransferFrom_Ok in Hexec. by eapply invariant_transferFrom.
  - (* approve *)
    apply approve_fields in Hexec as (Hex & Ho & Ha & Hop & Hu & Hs & Hn & Hm).
    destruct Hinv as [I1 I2 I3 I4 I5 I6 I7]. split.
    + by rewrite Hs.
    + by rewrite Hn.
    + intros id. rewrite Hn, (_ownerOf_same s s' id Ho). apply I3.
    + intros id. rewrite Hu, (_ownerOf_same s s' id Ho). apply I4.
    + intros id. rewrite Hm, (_ownerOf_same s s' id Ho). apply I5.
    + intros id. rewrite (_ownerOf_same s s' id Ho). intros Hz.
      unfold _getApproved. rewrite Ha, lookup_insert_ne; [by apply I6|].
      intros ->. done.
    + intros op. unfold isApprovedForAll. rewrite Hop. apply I7.
  - (* setApprovalForAll *)
    apply setApprovalForAll_fields in Hexec as (Ho & Ha & Hop & Hu & Hs & Hn & Hm).
    destruct Hinv as [I1 I2 I3 I4 I5 I6 I7]. split.
    + by rewrite Hs.
    + by rewrite Hn.
    + intros id. rewrite Hn, (_ownerOf_same s s' id Ho). apply I3.
    + intros id. rewrite Hu, (_ownerOf_same s s' id Ho). apply I4.
    + intros id. rewrite Hm, (_ownerOf_same s s' id Ho). apply I5.
    + intros id. rewrite (_ownerOf_same s s' id Ho). unfold _getApproved.
      rewrite Ha. apply I6.
    + intros op. unfold isApprovedForAll. rewrite Hop, lookup_insert_ne; [apply I7|].
      intros [= -> _]. done.
Qed.

Lemma reachable_invariant chain s : reachable chain s -> invariant s.
Proof.
  induction 1 as [|s sender c _ IH Hsender].
  - apply invariant_constructor.
  - by apply invariant_execute.
Qed.

End RegistryFacts.

Section RegistryClaims.
Import Registry.

Lemma tokenURI_eq s tokenId :
  tokenURI s tokenId
  = if bool_decide (_ownerOf s tokenId = 0) then Revert (ERC721NonexistentToken tokenId)
    else Ok (default "" (_tokenURIs s !! tokenId)).
Proof.
  unfold tokenURI. rewrite _requireOwned_eq.
  by destruct (bool_decide (_ownerOf s tokenId = 0)).
Qed.

Lemma reachable_registered : reachable Fixture.chain Fixture.registered.
Proof. apply reachable_call; [apply reachable_constructor | done]. Qed.

Lemma reachable_delegated : reachable Fixture.chain Fixture.delegated.
Proof. apply reachable_call; [apply reachable_registered | done]. Qed.

(** C1 (as amended). In every reachable state whose counter is below the
    [uint256] maximum, for every non-empty pointer [p] and every non-zero
    caller that can receive the token (an account without code, or a contract
    whose [onERC721Received] returns the ERC-721 selector), [register(p)]
    succeeds, returns the value [nextAgentId()] had before the call, makes
    the caller the owner of the new record and [p] its pointer, and leaves
    [nextAgentId()] exactly one greater. *)
Theorem register_assigns_next_id chain s sender p :
  reachable chain s -> p <> "" -> sender <> 0 -> accepts chain sender ->
  _nextAgentId s < MAX_UINT256 ->
  exists n s',
    nextAgentId s = Ok n /\
    register chain s sender p = Ok (n, s') /\
    ownerOf s' n = Ok sender /\
    tokenURI s' n = Ok p /\
    nextAgentId s' = Ok (n + 1).
Proof.
  intros Hreach Hp Hsender Hacc Hmax.
  pose proof (reachable_invariant chain s Hreach) as Hinv.
  destruct (register_Ok chain s sender p) as [s' Hreg]; try done.
  { rewrite (inv_status s Hinv). done. }
  { lia. }
  { apply (inv_fresh s Hinv). lia. }
  exists (_nextAgentId s), s'. split; [done|]. split; [done|].
  apply register_fields in Hreg as (_ & _ & _ & _ & _ & Ho & _ & _ & Hu & _ & Hn & _).
  assert (Howner : _ownerOf s' (_nextAgentId s) = sender).
  { rewrite (_ownerOf_insert s s' _ sender _ Ho). by case_decide. }
  split; [by apply ownerOf_Ok|]. split.
  - rewrite tokenURI_eq, Howner, (bool_decide_eq_false_2 _ Hsender), Hu,
      lookup_insert_eq. done.
  - unfold nextAgentId. by rewrite Hn.
Qed.

Lemma register_assigns_next_id_witness :
  exists s',
    nextAgentId constructor = Ok 1 /\
    register Fixture.chain constructor Fixture.this Fixture.TEST_URI = Ok (1, s') /\
    ownerOf s' 1 = Ok Fixture.this /\
    tokenURI s' 1 = Ok Fixture.TEST_URI /\
    nextAgentId s' = Ok 2.
Proof.
  destruct (register_assigns_next_id Fixture.chain constructor Fixture.this Fixture.TEST_URI)
    as (n & s' & Hn & H); [apply reachable_constructor | done | done | reflexivity
                          | reflexivity |].
  injection Hn as <-. by exists s'.
Defined.

(** C1, as stated, fails: a caller that is a contract without the
    [onERC721Received] hook cannot register, whatever the pointer. *)
Lemma register_rejects_bare_contract :
  Fixture.TEST_URI <> "" /\ Fixture.bare_contract <> 0 /\
  register Fixture.chain constructor Fixture.bare_contract Fixture.TEST_URI
  = Revert (ERC721InvalidReceiver Fixture.bare_contract) /\
  ~ (exists id s',
       register Fixture.chain constructor Fixture.bare_contract Fixture.TEST_URI
       = Ok (id, s')).
Proof.
  assert (H : register Fixture.chain constructor Fixture.bare_contract Fixture.TEST_URI
              = Revert (ERC721InvalidReceiver Fixture.bare_contract))
    by (vm_compute; reflexivity).
  repeat split; try done. intros (id & s' & H'). congruence.
Qed.

(** C2. For every existing record and every caller [C] that is the record's
    single delegate ([getApproved]) but neither its owner nor an operator of
    its owner, [setAgentURI] with a non-empty pointer succeeds when sent by
    [C], while [setMetadata] sent by [C] fails with "Not owner or approved"
    (PermissionDenied) and leaves the metadata store unchanged. *)
Theorem delegate_sets_pointer_not_metadata s agentId owner C newURI key value :
  ownerOf s agentId = Ok owner ->
  getApproved s agentId = Ok C ->
  C <> owner ->
  isApprovedForAll s owner C = false ->
  newURI <> "" ->
  (exists s', setAgentURI s C agentId newURI = Ok s' /\ tokenURI s' agentId = Ok newURI) /\
  setMetadata s C agentId key value = Revert Not_owner_or_approved /\
  classify Not_owner_or_approved = PermissionDenied /\
  _metadata (commit s (setMetadata s C agentId key value)) = _metadata s.
Proof.
  intros Howner Happ Hne Hop Huri.
  apply ownerOf_Ok in Howner as [Howner Hex].
  apply getApproved_Ok in Happ as [_ Happ].
  assert (Hmeta : setMetadata s C agentId key value = Revert Not_owner_or_approved).
  { rewrite setMetadata_eq. unfold authorize. rewrite Howner, Hop.
    rewrite (bool_decide_eq_false_2 (owner = 0)) by done.
    rewrite (bool_decide_eq_false_2 (owner = C)) by done. done. }
  split; [|by rewrite Hmeta].
  rewrite setAgentURI_eq. unfold authorize. rewrite Howner, Hop, Happ.
  rewrite (bool_decide_eq_false_2 (owner = 0)) by done.
  rewrite (bool_decide_eq_true_2 (C = C)) by done.
  rewrite orb_true_r. cbn [negb].
  rewrite (bool_decide_eq_false_2 _ Huri).
  eexists; split; [done|].
  rewrite tokenURI_eq.
  change (_ownerOf (emit _ (_setTokenURI s agentId newURI)) agentId)
    with (_ownerOf s agentId).
  rewrite Howner, (bool_decide_eq_false_2 (owner = 0)) by done.
  unfold _setTokenURI. cbn [emit set_tokenURIs _tokenURIs].
  by rewrite lookup_insert_eq.
Qed.

Lemma delegate_sets_pointer_not_metadata_witness :
  (exists s', setAgentURI Fixture.delegated Fixture.user1 1 Fixture.UPDATED_URI = Ok s'
              /\ tokenURI s' 1 = Ok Fixture.UPDATED_URI) /\
  setMetadata Fixture.delegated Fixture.user1 1 "key" [] = Revert Not_owner_or_approved /\
  classify Not_owner_or_approved = PermissionDenied /\
  _metadata (commit Fixture.delegated (setMetadata Fixture.delegated Fixture.user1 1 "key" []))
  = _metadata Fixture.delegated.
Proof.
  apply (delegate_sets_pointer_not_metadata Fixture.delegated 1 Fixture.this Fixture.user1
           Fixture.UPDATED_URI "key" []).
  - vm_compute; reflexivity.
  - vm_compute; reflexivity.
  - done.
  - vm_compute; reflexivity.
  - done.
Defined.

(** C4 (as amended). [getMetadata(id, key)] never fails, whether or not the
    record exists: in every reachable state it returns a value, which is the
    empty value when the key is unset and, in particular, for every key of an
    id that does not exist. *)
Theorem getMetadata_never_fails chain s agentId key :
  reachable chain s ->
  exists value,
    getMetadata s agentId key = Ok value /\
    (default ∅ (_metadata s !! agentId) !! key = None -> value = []) /\
    (_ownerOf s agentId = 0 -> value = []).
Proof.
  intros Hreach. pose proof (reachable_invariant chain s Hreach) as Hinv.
  eexists. split; [reflexivity|]. split.
  - by intros ->.
  - intros Hz. by rewrite (inv_metadata s Hinv _ Hz).
Qed.

Lemma getMetadata_never_fails_witness :
  exists value,
    getMetadata Fixture.registered 1 "nonexistent" = Ok value /\
    (default ∅ (_metadata Fixture.registered !! 1) !! "nonexistent" = None -> value = []) /\
    (_ownerOf Fixture.registered 1 = 0 -> value = []).
Proof.
  apply (getMetadata_never_fails Fixture.chain Fixture.registered 1 "nonexistent").
  apply reachable_registered.
Defined.

(** C4, as stated, fails: for an id that does not exist (so that [ownerOf]
    reverts), [getMetadata] returns the empty value and does not fail. *)
Lemma getMetadata_of_missing_record :
  ownerOf Fixture.registered 999 = Revert (ERC721NonexistentToken 999) /\
  getMetadata Fixture.registered 999 "key" = Ok [] /\
  ~ (exists e, getMetadata Fixture.registered 999 "key" = Revert e
               /\ classify e = NotFound).
Proof.
  split; [by vm_compute|]. split; [by vm_compute|].
  intros (e & H & _). vm_compute in H. discriminate.
Qed.

(** C5. For every existing record and principal [X], once the transfer of
    the record to [X] has succeeded, its owner is [X] and its single delegate
    is cleared; a later [setAgentURI] or [setMetadata] by the previous owner,
    who is neither [X] nor an operator of [X], fails with "Not owner or
    approved" (PermissionDenied), and the same calls by [X] succeed. *)
Theorem transfer_moves_authority s sender previous X agentId s' newURI key value :
  ownerOf s agentId = Ok previous ->
  transferFrom s sender previous X agentId = Ok s' ->
  previous <> X ->
  isApprovedForAll s X previous = false ->
  newURI <> "" ->
  ownerOf s' agentId = Ok X /\
  getApproved s' agentId = Ok 0 /\
  (forall u, setAgentURI s' previous agentId u = Revert Not_owner_or_approved) /\
  setMetadata s' previous agentId key value = Revert Not_owner_or_approved /\
  classify Not_owner_or_approved = PermissionDenied /\
  (exists s'', setAgentURI s' X agentId newURI = Ok s''
               /\ tokenURI s'' agentId = Ok newURI) /\
  (exists s'', setMetadata s' X agentId key value = Ok s''
               /\ getMetadata s'' agentId key = Ok value).
Proof.
  intros Hprev Htr Hne Hop Huri.
  apply ownerOf_Ok in Hprev as [Hprev Hex].
  apply transferFrom_fields in Htr as (HX & _ & _ & Ho & Ha & Hop' & _).
  rewrite (bool_decide_eq_false_2 _ Hex) in Ha.
  assert (Howner : _ownerOf s' agentId = X).
  { rewrite (_ownerOf_insert s s' _ X _ Ho). by case_decide. }
  assert (Happ : _getApproved s' agentId = 0).
  { unfold _getApproved. by rewrite Ha, lookup_insert_eq. }
  assert (Hop'' : isApprovedForAll s' X previous = false).
  { unfold isApprovedForAll in *. by rewrite Hop'. }
  split; [by apply ownerOf_Ok|]. split; [by apply getApproved_Ok; rewrite Howner|].
  split; [|split; [|split; [done|split]]].
  - intros u. rewrite setAgentURI_eq. unfold authorize.
    rewrite Howner, Happ, Hop''.
    rewrite (bool_decide_eq_false_2 (X = 0)) by done.
    rewrite (bool_decide_eq_false_2 (X = previous)) by done.
    rewrite (bool_decide_eq_false_2 (0 = previous)) by done. done.
  - rewrite setMetadata_eq. unfold authorize. rewrite Howner, Hop''.
    rewrite (bool_decide_eq_false_2 (X = 0)) by done.
    rewrite (bool_decide_eq_false_2 (X = previous)) by done. done.
  - rewrite setAgentURI_eq. unfold authorize. rewrite Howner.
    rewrite (bool_decide_eq_false_2 (X = 0)) by done.
    rewrite (bool_decide_eq_true_2 (X = X)) by done. cbn [orb negb].
    rewrite (bool_decide_eq_false_2 _ Huri).
    eexists; split; [done|]. rewrite tokenURI_eq.
    change (_ownerOf (emit _ (_setTokenURI s' agentId newURI)) agentId)
      with (_ownerOf s' agentId).
    rewrite Howner, (bool_decide_eq_false_2 (X = 0)) by done.
    unfold _setTokenURI. cbn [emit set_tokenURIs _tokenURIs].
    by rewrite lookup_insert_eq.
  - rewrite setMetadata_eq. unfold authorize. rewrite Howner.
    rewrite (bool_decide_eq_false_2 (X = 0)) by done.
    rewrite (bool_decide_eq_true_2 (X = X)) by done. cbn [orb negb].
    eexists; split; [done|]. unfold getMetadata.
    cbn [emit set_metadata _metadata].
    rewrite lookup_insert_eq. cbn [from_option id]. by rewrite lookup_insert_eq.
Qed.

Lemma transfer_moves_authority_witness :
  ownerOf Fixture.transferred 1 = Ok Fixture.user1 /\
  getApproved Fixture.transferred 1 = Ok 0 /\
  (forall u, setAgentURI Fixture.transferred Fixture.this 1 u
             = Revert Not_owner_or_approved) /\
  setMetadata Fixture.transferred Fixture.this 1 "key" [] = Revert Not_owner_or_approved /\
  classify Not_owner_or_approved = PermissionDenied /\
  (exists s'', setAgentURI Fixture.transferred Fixture.user1 1 Fixture.UPDATED_URI = Ok s''
               /\ tokenURI s'' 1 = Ok Fixture.UPDATED_URI) /\
  (exists s'', setMetadata Fixture.transferred Fixture.user1 1 "key" [] = Ok s''
               /\ getMetadata s'' 1 "key" = Ok []).
Proof.
  apply (transfer_moves_authority Fixture.registered Fixture.this Fixture.this
           Fixture.user1 1 Fixture.transferred Fixture.UPDATED_URI "key" []).
  - vm_compute; reflexivity.
  - vm_compute; reflexivity.
  - done.
  - vm_compute; reflexivity.
  - done.
Defined.

(** C6 (as amended). [register] with an empty pointer fails with "TokenURI
    cannot be empty" (ValidationError) and leaves the store as it was: no
    record, same counter. [setAgentURI] with an empty pointer always fails and
    leaves the store as it was; the failure is "URI cannot be empty"
    (ValidationError) when the record exists and the caller holds a pointer
    capability, "Not owner or approved" (PermissionDenied) when the caller
    holds none, and the nonexistent-token error when the id does not exist.
    Hence in every reachable state the pointer of every created record is
    non-empty. *)
Theorem empty_pointer_rejected chain s sender agentId :
  reachable chain s ->
  register chain s sender "" = Revert TokenURI_cannot_be_empty /\
  classify TokenURI_cannot_be_empty = ValidationError /\
  commit s (execute chain s sender (Call_register "")) = s /\
  setAgentURI s sender agentId ""
  = Revert (if bool_decide (_ownerOf s agentId = 0) then ERC721NonexistentToken agentId
            else if authorize s sender agentId PointerClass then URI_cannot_be_empty
            else Not_owner_or_approved) /\
  classify URI_cannot_be_empty = ValidationError /\
  commit s (execute chain s sender (Call_setAgentURI agentId "")) = s /\
  (forall id owner, ownerOf s id = Ok owner ->
                    exists p, tokenURI s id = Ok p /\ p <> "").
Proof.
  intros Hreach. pose proof (reachable_invariant chain s Hreach) as Hinv.
  assert (Hreg : register chain s sender "" = Revert TokenURI_cannot_be_empty).
  { unfold register, nonReentrant. rewrite (inv_status s Hinv). done. }
  assert (Hset : setAgentURI s sender agentId ""
                 = Revert (if bool_decide (_ownerOf s agentId = 0)
                           then ERC721NonexistentToken agentId
                           else if authorize s sender agentId PointerClass
                                then URI_cannot_be_empty
                                else Not_owner_or_approved)).
  { rewrite setAgentURI_eq.
    destruct (bool_decide (_ownerOf s agentId = 0)); [done|].
    by destruct (authorize s sender agentId PointerClass). }
  split; [done|]. split; [done|]. split.
  { cbn [execute]. by rewrite Hreg. }
  split; [done|]. split; [done|]. split.
  { cbn [execute]. by rewrite Hset. }
  intros id owner Howner. apply ownerOf_Ok in Howner as [Howner Hne].
  exists (default "" (_tokenURIs s !! id)). split.
  - rewrite tokenURI_eq, Howner. by rewrite (bool_decide_eq_false_2 _ Hne).
  - apply (inv_pointer s Hinv). congruence.
Qed.

Lemma empty_pointer_rejected_witness :
  register Fixture.chain Fixture.registered Fixture.this ""
  = Revert TokenURI_cannot_be_empty /\
  setAgentURI Fixture.registered Fixture.this 1 "" = Revert URI_cannot_be_empty /\
  tokenURI Fixture.registered 1 = Ok Fixture.TEST_URI.
Proof.
  destruct (empty_pointer_rejected Fixture.chain Fixture.registered Fixture.this 1
              reachable_registered) as (Hreg & _ & _ & Hset & _ & _ & _).
  split; [exact Hreg|]. split; [exact Hset|]. vm_compute; reflexivity.
Defined.

(** C6, as stated, fails: an update with an empty pointer sent by a caller
    without capability is refused for the missing capability
    (PermissionDenied), not for the empty value (ValidationError). *)
Lemma empty_pointer_from_stranger :
  setAgentURI Fixture.registered Fixture.user2 1 "" = Revert Not_owner_or_approved /\
  classify Not_owner_or_approved <> ValidationError.
Proof. split; [by vm_compute | done]. Qed.

(** C7. A successful transfer of a record to [X] does not modify the metadata
    store: [getMetadata] returns the same value for every id and key after the
    transfer as before, while the owner of the record is now [X], who thus
    inherits every key/value pair set before. *)
Theorem transfer_keeps_metadata s sender from X agentId s' :
  transferFrom s sender from X agentId = Ok s' ->
  ownerOf s' agentId = Ok X /\
  _metadata s' = _metadata s /\
  (forall id key, getMetadata s' id key = getMetadata s id key).
Proof.
  intros Htr.
  apply transferFrom_fields in Htr as (HX & _ & _ & Ho & _ & _ & _ & _ & _ & Hm).
  split.
  - apply ownerOf_Ok. split; [|done].
    rewrite (_ownerOf_insert s s' _ X _ Ho). by case_decide.
  - split; [done|]. intros id key. unfold getMetadata. by rewrite Hm.
Qed.

Lemma transfer_keeps_metadata_witness :
  ownerOf Fixture.annotated_transferred 1 = Ok Fixture.user1 /\
  _metadata Fixture.annotated_transferred = _metadata Fixture.annotated /\
  (forall id key, getMetadata Fixture.annotated_transferred id key
                  = getMetadata Fixture.annotated id key).
Proof.
  apply (transfer_keeps_metadata Fixture.annotated Fixture.this Fixture.this
           Fixture.user1 1 Fixture.annotated_transferred).
  vm_compute; reflexivity.
Defined.

(** *** The contract's test suite, replayed on the model *)

Example test_RegisterMintsAndEmitsEvent :
  (exists s', register Fixture.chain constructor Fixture.this Fixture.TEST_URI = Ok (1, s')
              /\ s' = Fixture.registered) /\
  events Fixture.registered
  = [Transfer 0 Fixture.this 1; MetadataUpdate 1;
     Registered 1 Fixture.TEST_URI Fixture.this] /\
  ownerOf Fixture.registered 1 = Ok Fixture.this /\
  tokenURI Fixture.registered 1 = Ok Fixture.TEST_URI /\
  nextAgentId Fixture.registered = Ok 2.
Proof. split; [eexists; split|]; vm_compute; done. Qed.

Example test_RegisterRevertsOnEmptyURI :
  register Fixture.chain constructor Fixture.this "" = Revert TokenURI_cannot_be_empty.
Proof. by vm_compute. Qed.

Example test_SetAgentURIByApprovedAddress :
  exists s', setAgentURI Fixture.delegated Fixture.user1 1 Fixture.UPDATED_URI = Ok s'
             /\ tokenURI s' 1 = Ok Fixture.UPDATED_URI.
Proof. eexists; split; vm_compute; done. Qed.

Example test_SetAgentURIRevertsForNonOwner :
  setAgentURI Fixture.registered Fixture.user2 1 Fixture.UPDATED_URI
  = Revert Not_owner_or_approved.
Proof. by vm_compute. Qed.

Example test_SetAgentURIRevertsOnEmptyURI :
  setAgentURI Fixture.registered Fixture.this 1 "" = Revert URI_cannot_be_empty.
Proof. by vm_compute. Qed.

Example test_SetMetadataRevertsForNonOwner :
  setMetadata Fixture.registered Fixture.user2 1 "key" Fixture.wallet_value
  = Revert Not_owner_or_approved.
Proof. by vm_compute. Qed.

Example test_GetMetadataReturnsEmptyForUnsetKey :
  getMetadata Fixture.registered 1 "nonexistent" = Ok [].
Proof. by vm_compute. Qed.

Example test_TokenURIRevertsForNonexistentToken :
  tokenURI Fixture.registered 999 = Revert (ERC721NonexistentToken 999).
Proof. by vm_compute. Qed.

Example test_PreviousOwnerCannotUpdateAfterTransfer :
  ownerOf Fixture.transferred 1 = Ok Fixture.user1 /\
  setAgentURI Fixture.transferred Fixture.this 1 Fixture.UPDATED_URI
  = Revert Not_owner_or_approved.
Proof. split; by vm_compute. Qed.

End RegistryClaims.

(** ** Part IV. Properties of the updater *)

Section UpdaterFacts.
Import Updater.
Local Open Scope Z_scope.

Lemma settles_in_bind {A B : Type} (P : A -> Prop) (Q : B -> Prop)
    (m : async A) (f : A -> async B) :
  settles_in P m -> (forall a, P a -> settles_in Q (f a)) -> settles_in Q (bind m f).
Proof.
  intros Hm Hf. induction Hm; cbn [bind]; [auto | by constructor ..].
Qed.

(** The refresh routine has no path that throws: whatever is thrown inside
    the [try] block reaches the [catch] block, which only logs. *)
Lemma updateTokenURI_settles cfg v : settles_in (fun _ => True) (updateTokenURI cfg v).
Proof.
  unfold updateTokenURI, await. cbn [try_catch].
  constructor; intros now. do 2 constructor.
  destruct (provider v); cbn [try_catch]; [|by repeat constructor].
  constructor; intros [feeData|e]; cbn [try_catch]; [|by repeat constructor].
  constructor.
  destruct (registry v); cbn [try_catch]; [|by repeat constructor].
  constructor; intros [tx|e]; cbn [try_catch]; [|by repeat constructor].
  constructor. constructor; intros [receipt|e]; cbn [try_catch]; by repeat constructor.
Qed.

Lemma triggerUpdate_settles cfg v :
  settles_in (fun s => str s = str (match registry v with
                                    | Some _ => "Update triggered"
                                    | None => "Updater not configured"
                                    end))
             (triggerUpdate cfg v).
Proof.
  unfold triggerUpdate. destruct (registry v).
  - eapply settles_in_bind; [apply updateTokenURI_settles|].
    intros _ _. by constructor.
  - by constructor.
Qed.

Lemma callback_settles cfg v o : settles_in (outcome_of v o) (callback cfg v o).
Proof.
  destruct o; cbn [callback outcome_of].
  - eapply settles_in_bind; [apply updateTokenURI_settles|]. intros; by constructor.
  - eapply settles_in_bind; [apply updateTokenURI_settles|]. intros; by constructor.
  - eapply settles_in_bind; [apply triggerUpdate_settles|]. intros; by constructor.
Qed.

Lemma complete_settles {A : Type} (P : A -> Prop) net now (m : async A) out :
  settles_in P m -> exists a out', complete net now m out = (Fulfilled a, out') /\ P a.
Proof.
  intros Hm. revert out.
  induction Hm as [a Ha|k _ IH|l k _ IH|X q k _ IH]; intros out; cbn [complete].
  - by exists a, out.
  - apply IH.
  - apply IH.
  - apply IH.
Qed.

(** The console only grows. *)
Lemma complete_console_extends {A : Type} net now (m : async A) out :
  exists rest, (complete net now m out).2 = out ++ rest.
Proof.
  revert out. induction m as [a|e|k IH|l k IH|X q k IH]; intros out; cbn [complete].
  - exists []. by rewrite app_nil_r.
  - exists []. by rewrite app_nil_r.
  - apply IH.
  - destruct (IH (out ++ [l])) as [rest ->]. exists (l :: rest). by rewrite <- app_assoc.
  - apply IH.
Qed.

Lemma run_sync_settles {A : Type} (P : A -> Prop) (m : async A) now out :
  settles_in P m ->
  match run_sync m now out with
  | (Done r, _) => exists a, r = Fulfilled a /\ P a
  | (Blocked q k, _) => forall r, settles_in P (k r)
  end.
Proof.
  intros Hm. revert out.
  induction Hm as [a Ha|k _ IH|l k _ IH|X q k Hk _]; intros out; cbn [run_sync].
  - by exists a.
  - apply IH.
  - apply IH.
  - exact Hk.
Qed.

Lemma sound_spawn cfg o p : sound p -> sound (spawn cfg o p).
Proof.
  intros [Hrun Hfin]. unfold spawn.
  pose proof (run_sync_settles _ _ (clock p) (console p) (callback_settles cfg (vars p) o))
    as Hcb.
  destruct (run_sync (callback cfg (vars p) o) (clock p) (console p)) as [[r|X q k] out].
  - split; [done|]. cbn [finished vars]. apply Forall_app. split; [done|].
    by apply Forall_singleton.
  - split; [|done]. cbn [running vars]. apply Forall_app. split; [done|].
    by apply Forall_singleton.
Qed.

Lemma sound_step cfg p e : sound p -> sound (step cfg p e).
Proof.
  intros Hp. destruct e as [i|i| |i net|t]; cbn [step].
  - destruct (cron p !! i); [by apply sound_spawn | done].
  - destruct (timeouts p !! i); [|done]. apply sound_spawn.
    destruct Hp as [Hrun Hfin]. by split.
  - by apply sound_spawn.
  - destruct (running p !! i) as [t|] eqn:Ht; [|done].
    destruct Hp as [Hrun Hfin].
    pose proof (proj1 (Forall_lookup _ _) Hrun i t Ht (net _ (awaited t))) as Hk.
    apply (run_sync_settles _ _ (clock p) (console p)) in Hk.
    destruct (run_sync (resume t (net _ (awaited t))) (clock p) (console p))
      as [[r|X q k] out].
    + split; cbn [running finished vars].
      * by apply Forall_delete.
      * apply Forall_app. split; [done|]. by apply Forall_singleton.
    + split; cbn [running finished vars]; [|done].
      apply Forall_insert; done.
  - destruct Hp as [Hrun Hfin]. by split.
Qed.

Lemma run_cons cfg p e es : run cfg p (e :: es) = run cfg (step cfg p e) es.
Proof. reflexivity. Qed.

Lemma sound_run cfg p es : sound p -> sound (run cfg p es).
Proof.
  revert p. induction es as [|e es IH]; intros p Hp; [done|].
  rewrite run_cons. apply IH. by apply sound_step.
Qed.

Lemma sound_initUpdater cfg : sound (initUpdater cfg boot).
Proof.
  unfold initUpdater. destruct (_ || _); split; cbn [running finished boot]; constructor.
Qed.

Lemma vars_spawn cfg o p : vars (spawn cfg o p) = vars p /\ cron (spawn cfg o p) = cron p.
Proof.
  unfold spawn.
  by destruct (run_sync (callback cfg (vars p) o) (clock p) (console p)) as [[r|X q k] out].
Qed.

(** No input changes the module variables or unschedules the cron job. *)
Lemma vars_step cfg p e : vars (step cfg p e) = vars p /\ cron (step cfg p e) = cron p.
Proof.
  destruct e as [i|i| |i net|t]; cbn [step].
  - destruct (cron p !! i); [apply vars_spawn | done].
  - destruct (timeouts p !! i); [|done]. exact (vars_spawn cfg warmup (mkProcess _ _ _ _ _ _ _)).
  - apply vars_spawn.
  - destruct (running p !! i) as [t|]; [|done].
    by destruct (run_sync _ _ _) as [[r|X q k] out].
  - done.
Qed.

Lemma vars_run cfg p es : vars (run cfg p es) = vars p /\ cron (run cfg p es) = cron p.
Proof.
  revert p. induction es as [|e es IH]; intros p; [done|].
  rewrite run_cons. destruct (IH (step cfg p e)) as [-> ->]. apply vars_step.
Qed.

(** A trigger that fires on a configured updater suspends a new call on the
    fee query; once fees arrive, that call sends [setAgentURI] for
    [config.agentId] with the pointer computed from the clock at the trigger. *)
Lemma spawn_configured cfg o p :
  configured (vars p) ->
  exists k,
    spawn cfg o p
    = mkProcess (vars p) (cron p) (timeouts p) (clock p)
                (console p ++ [log_updating (agentId cfg);
                               log_new_uri (newURI cfg (clock p))])
                (running p ++ [mkTask o FeeData getFeeData k]) (finished p) /\
    forall feeData now out, exists k',
      run_sync (k (Fulfilled feeData)) now out
      = (Blocked (send_setAgentURI (agentId cfg) (newURI cfg (clock p)) 100000) k',
         out ++ [log_gas_price (default 0 (gasPrice feeData))]).
Proof.
  intros [[pv Hpv] [rg Hrg]]. unfold spawn, callback, triggerUpdate, updateTokenURI, await.
  rewrite Hpv, Hrg. destruct o; cbn [try_catch bind run_sync]; rewrite <- !app_assoc;
    (eexists; split; [reflexivity|]); intros feeData now out;
    cbn [try_catch bind run_sync]; eexists; reflexivity.
Qed.

End UpdaterFacts.

Section UpdaterClaims.
Import Updater.
Local Open Scope Z_scope.

(** C3 (as amended). The service has no single-flight guard: whenever the
    updater is configured, every trigger that fires (a tick of a scheduled
    job, the warm-up timer, or a manual trigger) starts a refresh run of its
    own, whether or not another run is in flight. The runs already in flight
    stay in flight and the new one is added to them, so overlapping triggers
    give as many concurrent runs as there are triggers. Each run makes a
    submission of its own for the same record: the new run waits for the fee
    data, and once they arrive, whatever the clock then reads, it sends
    [setAgentURI] for [config.agentId] with the pointer computed when the
    trigger fired; in the process this adds one submission in flight to those
    already there. *)
Theorem every_trigger_starts_a_run cfg p e :
  configured (vars p) -> fires p e ->
  exists t,
    running (step cfg p e) = running p ++ [t] /\
    is_submitting t = false /\
    in_flight (step cfg p e) = S (in_flight p) /\
    finished (step cfg p e) = finished p /\
    (exists k,
       t = mkTask (origin t) FeeData getFeeData k /\
       forall feeData now out, exists k',
         run_sync (k (Fulfilled feeData)) now out
         = (Blocked (send_setAgentURI (agentId cfg) (newURI cfg (clock p)) 100000) k',
            out ++ [log_gas_price (default 0 (gasPrice feeData))])) /\
    (forall (net : forall X, request X -> settled X) feeData,
       net _ getFeeData = Fulfilled feeData ->
       exists t',
         running (step cfg (step cfg p e) (settle (in_flight p) net)) = running p ++ [t'] /\
         origin t' = origin t /\
         submission_of t' = Some (agentId cfg, newURI cfg (clock p)) /\
         submissions_in_flight (step cfg (step cfg p e) (settle (in_flight p) net))
         = S (submissions_in_flight p)).
Proof.
  intros Hcfg Hfires.
  assert (Hspawn : forall o q, configured (vars q) ->
            running q = running p -> clock q = clock p -> finished q = finished p ->
            exists t, running (spawn cfg o q) = running p ++ [t] /\
                      is_submitting t = false /\
                      in_flight (spawn cfg o q) = S (in_flight p) /\
                      finished (spawn cfg o q) = finished p /\
                      (exists k,
                         t = mkTask (origin t) FeeData getFeeData k /\
                         forall feeData now out, exists k',
                           run_sync (k (Fulfilled feeData)) now out
                           = (Blocked (send_setAgentURI (agentId cfg)
                                         (newURI cfg (clock p)) 100000) k',
                              out ++ [log_gas_price (default 0 (gasPrice feeData))])) /\
                      (forall (net : forall X, request X -> settled X) feeData,
                         net _ getFeeData = Fulfilled feeData ->
                         exists t',
                           running (step cfg (spawn cfg o q) (settle (in_flight p) net))
                           = running p ++ [t'] /\
                           origin t' = origin t /\
                           submission_of t' = Some (agentId cfg, newURI cfg (clock p)) /\
                           submissions_in_flight
                             (step cfg (spawn cfg o q) (settle (in_flight p) net))
                           = S (submissions_in_flight p))).
  { intros o q Hq Hrun Hclock Hfin.
    destruct (spawn_configured cfg o q Hq) as (k & -> & Hk).
    rewrite Hrun, Hclock, Hfin in *.
    eexists. split; [reflexivity|]. split; [reflexivity|].
    split; [unfold in_flight; cbn [running]; rewrite length_app; cbn [length]; lia|].
    split; [reflexivity|].
    split; [exists k; split; [reflexivity | exact Hk]|].
    intros net feeData Hfee. cbn [step running]. unfold in_flight.
    rewrite lookup_app_r by lia. rewrite Nat.sub_diag. cbn [lookup list_lookup].
    cbn [awaited resume awaited_type]. rewrite Hfee.
    destruct (Hk feeData (clock p)
                (console q ++ [log_updating (agentId cfg); log_new_uri (newURI cfg (clock p))]))
      as [k' Hk'].
    cbn [clock console]. rewrite Hk'.
    assert (Hins : forall t', <[length (running p) := t']>
                                (running p ++ [mkTask o FeeData getFeeData k])
                              = running p ++ [t']).
    { intros t'. rewrite insert_app_r_alt by lia. by rewrite Nat.sub_diag. }
    eexists. split; [cbn [running]; apply Hins|].
    split; [reflexivity|]. split; [reflexivity|].
    unfold submissions_in_flight. cbn [running]. rewrite Hins.
    rewrite filter_app, length_app, filter_cons_True by done.
    rewrite Nat.add_1_r. reflexivity. }
  destruct e as [i|i| |i net|t]; cbn [step fires] in *; try done.
  - destruct Hfires as [x ->]. by apply Hspawn.
  - destruct Hfires as [x ->].
    by apply (Hspawn warmup (mkProcess _ _ _ _ _ _ _) Hcfg).
  - by apply Hspawn.
Qed.

Lemma every_trigger_starts_a_run_witness :
  exists t,
    running (step Fixture.cfg (step Fixture.cfg Fixture.started (cron_tick 0)) manual_trigger)
    = running (step Fixture.cfg Fixture.started (cron_tick 0)) ++ [t] /\
    is_submitting t = false /\
    in_flight (step Fixture.cfg (step Fixture.cfg Fixture.started (cron_tick 0)) manual_trigger)
    = 2%nat /\
    (forall feeData, exists t',
       running (step Fixture.cfg
                  (step Fixture.cfg (step Fixture.cfg Fixture.started (cron_tick 0))
                     manual_trigger)
                  (settle 1 (fun X q =>
                               match q in request X return settled X with
                               | getFeeData => Fulfilled feeData
                               | q => Fixture.net_ok _ q
                               end)))
       = running (step Fixture.cfg Fixture.started (cron_tick 0)) ++ [t'] /\
       origin t' = manual /\
       submission_of t' = Some (1, "https://api.example.com/erc8004/metadata?v=0")).
Proof.
  destruct (every_trigger_starts_a_run Fixture.cfg
              (step Fixture.cfg Fixture.started (cron_tick 0)) manual_trigger)
    as (t & Hrun & Hsub & Hn & _ & (k & Ht & _) & Hsettle).
  - split; vm_compute; eauto.
  - exact I.
  - exists t. split; [exact Hrun|]. split; [exact Hsub|]. split; [exact Hn|].
    intros feeData.
    destruct (Hsettle (fun X q =>
                         match q in request X return settled X with
                         | getFeeData => Fulfilled feeData
                         | q => Fixture.net_ok _ q
                         end) feeData eq_refl) as (t' & Hrun' & Ho & Hs & _).
    exists t'. split; [exact Hrun'|]. split; [|exact Hs].
    rewrite Ho.
    assert (Hlast : last (running (step Fixture.cfg
                                     (step Fixture.cfg Fixture.started (cron_tick 0))
                                     manual_trigger)) = Some t)
      by (rewrite Hrun; apply last_snoc).
    vm_compute in Hlast. by injection Hlast as <-.
Defined.

(** C3, as stated, fails: a cron tick and a manual trigger that overlap give
    two runs in flight, each with its own [setAgentURI] submission for the
    same agent. *)
Lemma overlapping_triggers_submit_twice :
  origin <$> running Fixture.overlap = [recurring; manual] /\
  submission_of <$> running Fixture.overlap
  = [Some (1, "https://api.example.com/erc8004/metadata?v=1700000000");
     Some (1, "https://api.example.com/erc8004/metadata?v=1700000000")] /\
  submissions_in_flight Fixture.overlap = 2%nat /\
  ~ (submissions_in_flight Fixture.overlap <= 1)%nat.
Proof.
  assert (H : submissions_in_flight Fixture.overlap = 2%nat) by (vm_compute; reflexivity).
  split; [vm_compute; reflexivity|]. split; [vm_compute; reflexivity|].
  split; [done|]. rewrite H. lia.
Qed.

(** C8. Every failure during a refresh (of the fee query, the submission or
    the confirmation) is caught and logged inside [updateTokenURI], whose
    promise is fulfilled all the same, so nothing propagates to its caller:
    after any inputs, failures included, no call of the process has ever ended
    rejected. A failure in one cycle does not stop the next one: the cron job
    of a configured updater stays scheduled, its next tick starts a new run,
    and once fees arrive that run sends a fresh [setAgentURI]. *)
Theorem refresh_failures_are_absorbed cfg v net now out es :
  let refresh := complete net now (updateTokenURI cfg v) out in
  let uri := newURI cfg now in
  let p := run cfg (initUpdater cfg boot) es in
  refresh.1 = Fulfilled tt /\
  (configured v ->
   (forall e, net _ getFeeData = Rejected e ->
      refresh.2 = out ++ [log_updating (agentId cfg); log_new_uri uri; error_failed e]) /\
   (forall feeData e,
      net _ getFeeData = Fulfilled feeData ->
      net _ (send_setAgentURI (agentId cfg) uri 100000) = Rejected e ->
      refresh.2 = out ++ [log_updating (agentId cfg); log_new_uri uri;
                          log_gas_price (default 0 (gasPrice feeData));
                          error_failed e]) /\
   (forall feeData tx e,
      net _ getFeeData = Fulfilled feeData ->
      net _ (send_setAgentURI (agentId cfg) uri 100000) = Fulfilled tx ->
      net _ (wait tx) = Rejected e ->
      refresh.2 = out ++ [log_updating (agentId cfg); log_new_uri uri;
                          log_gas_price (default 0 (gasPrice feeData));
                          log_tx_submitted (hash tx); error_failed e])) /\
  Forall (fun f => exists a, f.2 = Fulfilled a) (finished p) /\
  (configured (vars p) ->
   cron p = cron (initUpdater cfg boot) /\
   exists k,
     running (step cfg p (cron_tick 0))
     = running p ++ [mkTask recurring FeeData getFeeData k] /\
     forall feeData now' out', exists k',
       run_sync (k (Fulfilled feeData)) now' out'
       = (Blocked (send_setAgentURI (agentId cfg) (newURI cfg (clock p)) 100000) k',
          out' ++ [log_gas_price (default 0 (gasPrice feeData))])).
Proof.
  intros refresh uri p.
  split; [|split; [|split]].
  - destruct (complete_settles _ net now _ out (updateTokenURI_settles cfg v))
      as (a & out' & Hc & _).
    subst refresh. rewrite Hc. by destruct a.
  - intros [[pv Hpv] [rg Hrg]].
    assert (Hrefresh : refresh = complete net now (updateTokenURI cfg v) out) by done.
    unfold updateTokenURI, await in Hrefresh. rewrite Hpv, Hrg in Hrefresh.
    cbn [try_catch complete] in Hrefresh. fold uri in Hrefresh.
    split; [|split].
    + intros e He. rewrite Hrefresh, He. cbn [try_catch complete snd].
      by rewrite <- !app_assoc.
    + intros feeData e Hfee He. rewrite Hrefresh, Hfee. cbn [try_catch complete].
      rewrite He. cbn [try_catch complete snd]. by rewrite <- !app_assoc.
    + intros feeData tx e Hfee Htx He. rewrite Hrefresh, Hfee. cbn [try_catch complete].
      rewrite Htx. cbn [try_catch complete]. rewrite He.
      cbn [try_catch complete snd]. by rewrite <- !app_assoc.
  - pose proof (sound_run cfg _ es (sound_initUpdater cfg)) as [_ Hfin]. fold p in Hfin.
    eapply Forall_impl; [exact Hfin|]. intros f (a & Ha & _). by exists a.
  - intros Hcfg.
    destruct (vars_run cfg (initUpdater cfg boot) es) as [Hvars Hcron]. fold p in Hvars, Hcron.
    split; [done|].
    assert (Hjob : is_Some (cron p !! 0%nat)).
    { rewrite Hcron. rewrite Hvars in Hcfg. revert Hcfg. unfold initUpdater.
      destruct (_ || _); cbn [vars cron boot app lookup list_lookup].
      - by intros [[? [=]] _].
      - eauto. }
    cbn [step]. destruct Hjob as [job ->].
    destruct (spawn_configured cfg recurring p Hcfg) as (k & -> & Hk).
    exists k. split; [done|]. exact Hk.
Qed.

Lemma refresh_failures_are_absorbed_witness :
  (complete Fixture.net_down 1700000000000 (updateTokenURI Fixture.cfg (vars Fixture.started)) []).1
  = Fulfilled tt /\
  (complete Fixture.net_down 1700000000000 (updateTokenURI Fixture.cfg (vars Fixture.started)) []).2
  = [log_updating 1;
     log_new_uri "https://api.example.com/erc8004/metadata?v=1700000000";
     error_failed (Error "network down")].
Proof.
  destruct (refresh_failures_are_absorbed Fixture.cfg (vars Fixture.started)
              Fixture.net_down 1700000000000 [] [])
    as (H1 & H2 & _).
  split; [exact H1|].
  destruct H2 as (H2 & _); [split; vm_compute; eauto|].
  exact (H2 (Error "network down") eq_refl).
Defined.

(** C9 (as amended). Each refresh appends the clock's time in whole seconds
    to the stable base pointer, and that pointer is the one it logs and
    submits. Along a clock that does not go back the token does not decrease,
    and two refreshes publish different pointers exactly when their clock
    readings fall in different seconds, in particular when they are a second
    or more apart. *)
Theorem version_separates_seconds cfg v net out now1 now2 :
  now1 <= now2 ->
  log_new_uri (newURI cfg now1) ∈ (complete net now1 (updateTokenURI cfg v) out).2 /\
  version now1 <= version now2 /\
  (newURI cfg now1 <> newURI cfg now2 <-> version now1 <> version now2) /\
  (now1 + 1000 <= now2 -> newURI cfg now1 <> newURI cfg now2).
Proof.
  intros Hle. split.
  { unfold updateTokenURI. cbn [try_catch complete].
    match goal with
    | |- _ ∈ (complete _ _ ?m ?o).2 =>
        destruct (complete_console_extends net now1 m o) as [rest ->]
    end.
    rewrite <- !app_assoc. set_solver. }
  unfold version.
  assert (Hinj : newURI cfg now1 = newURI cfg now2 <-> now1 / 1000 = now2 / 1000).
  { unfold newURI, version. split; [|by intros ->].
    intros H. apply (inj (String.app (baseUrl cfg))) in H.
    apply (inj (String.app "/erc8004/metadata?v=")) in H.
    by apply (inj pretty) in H. }
  split; [by apply Z.div_le_mono|]. split; [by rewrite Hinj|].
  intros Hfar. rewrite Hinj.
  assert (now1 / 1000 < now2 / 1000); [|lia].
  apply Z.lt_le_trans with ((now1 + 1 * 1000) / 1000).
  - rewrite Z.div_add by lia. lia.
  - apply Z.div_le_mono; lia.
Qed.

Lemma version_separates_seconds_witness :
  log_new_uri (newURI Fixture.cfg 1700000000000)
    ∈ (complete Fixture.net_ok 1700000000000
         (updateTokenURI Fixture.cfg (vars Fixture.started)) []).2 /\
  version 1700000000000 <= version 1700021600000 /\
  (newURI Fixture.cfg 1700000000000 <> newURI Fixture.cfg 1700021600000
   <-> version 1700000000000 <> version 1700021600000) /\
  (1700000000000 + 1000 <= 1700021600000 ->
   newURI Fixture.cfg 1700000000000 <> newURI Fixture.cfg 1700021600000).
Proof.
  apply (version_separates_seconds Fixture.cfg (vars Fixture.started) Fixture.net_ok []
           1700000000000 1700021600000).
  lia.
Defined.

(** C9, as stated, fails: two refreshes within the same second, the later
    one 999 ms after the earlier, compute the same token and publish the same
    pointer. *)
Lemma same_second_same_pointer :
  1700000000000 < 1700000000999 /\
  version 1700000000000 = version 1700000000999 /\
  newURI Fixture.cfg 1700000000000 = newURI Fixture.cfg 1700000000999 /\
  (complete Fixture.net_ok 1700000000000 (updateTokenURI Fixture.cfg (vars Fixture.started)) []).2
  = (complete Fixture.net_ok 1700000000999 (updateTokenURI Fixture.cfg (vars Fixture.started)) []).2.
Proof. repeat split; vm_compute; reflexivity. Qed.

(** C10. Whenever the updater is configured ([registry] is set),
    [triggerUpdate()] resolves with "Update triggered" whatever the network
    answered: the value is the same for a failed refresh as for a successful
    one, and after any inputs every finished manual trigger of the process has
    been fulfilled with that string. *)
Theorem triggerUpdate_reports_triggered cfg es net net' now out :
  let p := run cfg (initUpdater cfg boot) es in
  is_Some (registry (vars p)) ->
  (complete net now (triggerUpdate cfg (vars p)) out).1 = Fulfilled "Update triggered" /\
  (complete net' now (triggerUpdate cfg (vars p)) out).1
  = (complete net now (triggerUpdate cfg (vars p)) out).1 /\
  Forall (fun f => f.1 = manual -> f.2 = Fulfilled (str "Update triggered"))
         (finished p).
Proof.
  intros p [rg Hrg].
  assert (Hany : forall n,
    (complete n now (triggerUpdate cfg (vars p)) out).1 = Fulfilled "Update triggered").
  { intros n.
    destruct (complete_settles _ n now _ out (triggerUpdate_settles cfg (vars p)))
      as (a & out' & -> & Ha).
    rewrite Hrg in Ha. by injection Ha as ->. }
  split; [apply Hany|]. split; [by rewrite !Hany|].
  pose proof (sound_run cfg _ es (sound_initUpdater cfg)) as [_ Hfin]. fold p in Hfin.
  eapply Forall_impl; [exact Hfin|].
  intros [o r] (a & Ha & Hout) Ho. cbn [fst snd] in *. subst o r.
  cbn [outcome_of] in Hout. by rewrite Hrg in Hout; subst a.
Qed.

Lemma triggerUpdate_reports_triggered_witness :
  (complete Fixture.net_down 0 (triggerUpdate Fixture.cfg (vars Fixture.started)) []).1
  = Fulfilled "Update triggered" /\
  (complete Fixture.net_ok 0 (triggerUpdate Fixture.cfg (vars Fixture.started)) []).1
  = (complete Fixture.net_down 0 (triggerUpdate Fixture.cfg (vars Fixture.started)) []).1 /\
  Forall (fun f => f.1 = manual -> f.2 = Fulfilled (str "Update triggered"))
         (finished (run Fixture.cfg Fixture.started
                        [manual_trigger; settle 0 Fixture.net_down])).
Proof.
  apply (triggerUpdate_reports_triggered Fixture.cfg
           [manual_trigger; settle 0 Fixture.net_down] Fixture.net_down Fixture.net_ok 0 []).
  vm_compute; eauto.
Defined.

End UpdaterClaims.

(** ** Part V. Further properties of the registry *)

Section RegistryMore.
Import Registry.

Ltac fields' :=
  cbn [_owners _balances _tokenApprovals _operatorApprovals _tokenURIs _status
       _nextAgentId _metadata events set_owners set_balances set_tokenApprovals
       set_operatorApprovals set_tokenURIs set_status set_nextAgentId set_metadata
       emit fst snd] in *.

Lemma authorize_pointer s sender agentId owner :
  ownerOf s agentId = Ok owner ->
  authorize s sender agentId PointerClass = true
  <-> owner = sender \/ isApprovedForAll s owner sender = true
      \/ getApproved s agentId = Ok sender.
Proof.
  intros Howner. apply ownerOf_Ok in Howner as [Howner Hne].
  unfold authorize. rewrite Howner, !orb_true_iff, !bool_decide_eq_true.
  rewrite getApproved_Ok, Howner. intuition.
Qed.

Lemma authorize_metadata s sender agentId owner :
  ownerOf s agentId = Ok owner ->
  authorize s sender agentId MetadataClass = true
  <-> owner = sender \/ isApprovedForAll s owner sender = true.
Proof.
  intros Howner. apply ownerOf_Ok in Howner as [Howner Hne].
  unfold authorize. rewrite Howner, !orb_true_iff, !bool_decide_eq_true. done.
Qed.

Lemma setAgentURI_Ok s sender agentId newURI s' :
  setAgentURI s sender agentId newURI = Ok s' ->
  _ownerOf s agentId <> 0 /\ authorize s sender agentId PointerClass = true /\
  newURI <> "" /\
  s' = emit (AgentURIUpdated agentId newURI) (_setTokenURI s agentId newURI).
Proof.
  rewrite setAgentURI_eq. case_bool_decide; [done|].
  destruct (authorize s sender agentId PointerClass); [|done]. cbn [negb].
  case_bool_decide; [done|]. by intros [= <-].
Qed.

Lemma setMetadata_Ok s sender agentId key value s' :
  setMetadata s sender agentId key value = Ok s' ->
  _ownerOf s agentId <> 0 /\ authorize s sender agentId MetadataClass = true /\
  s' = emit (MetadataSet agentId key value)
         (set_metadata
            (<[agentId := <[key := value]> (default ∅ (_metadata s !! agentId))]>
               (_metadata s)) s).
Proof.
  rewrite setMetadata_eq. case_bool_decide; [done|].
  destruct (authorize s sender agentId MetadataClass); [|done]. cbn [negb].
  by intros [= <-].
Qed.

(** X1. What [setMetadata] wrote is what [getMetadata] reads: after a
    successful [setMetadata(id, key, value)], [getMetadata(id, key)] returns
    [value], every other key and every other record reads as before, and the
    owner and the pointer of every record are untouched. *)
Theorem setMetadata_then_getMetadata s sender agentId key value s' :
  setMetadata s sender agentId key value = Ok s' ->
  getMetadata s' agentId key = Ok value /\
  (forall id k, (id, k) <> (agentId, key) -> getMetadata s' id k = getMetadata s id k) /\
  (forall id, ownerOf s' id = ownerOf s id /\ tokenURI s' id = tokenURI s id
              /\ getApproved s' id = getApproved s id) /\
  nextAgentId s' = nextAgentId s.
Proof.
  intros H. apply setMetadata_Ok in H as (_ & _ & ->).
  unfold getMetadata. fields'. split; [|split; [|done]].
  - rewrite lookup_insert_eq. cbn [from_option id]. by rewrite lookup_insert_eq.
  - intros id k Hne. destruct (decide (id = agentId)) as [->|Hid].
    + rewrite lookup_insert_eq. cbn [from_option id].
      rewrite lookup_insert_ne; [done|]. congruence.
    + by rewrite lookup_insert_ne.
Qed.

Lemma setMetadata_then_getMetadata_witness :
  getMetadata Fixture.annotated 1 "agentWallet" = Ok Fixture.wallet_value /\
  (forall id k, (id, k) <> (1, "agentWallet") ->
                getMetadata Fixture.annotated id k = getMetadata Fixture.registered id k) /\
  (forall id, ownerOf Fixture.annotated id = ownerOf Fixture.registered id
              /\ tokenURI Fixture.annotated id = tokenURI Fixture.registered id
              /\ getApproved Fixture.annotated id = getApproved Fixture.registered id) /\
  nextAgentId Fixture.annotated = nextAgentId Fixture.registered.
Proof.
  apply (setMetadata_then_getMetadata Fixture.registered Fixture.this 1 "agentWallet"
           Fixture.wallet_value Fixture.annotated).
  vm_compute; reflexivity.
Defined.

(** X2. [setAgentURI] succeeds exactly when the record exists, the caller is
    its owner, an operator of its owner or its single delegate, and the new
    pointer is not empty. For an existing record any other caller is refused
    with "Not owner or approved", whatever the pointer, and for an id that
    does not exist the call fails with the nonexistent-token error. *)
Theorem setAgentURI_succeeds_iff s sender agentId newURI :
  ((exists s', setAgentURI s sender agentId newURI = Ok s')
   <-> exists owner,
         ownerOf s agentId = Ok owner /\
         (owner = sender \/ isApprovedForAll s owner sender = true
          \/ getApproved s agentId = Ok sender) /\
         newURI <> "") /\
  (forall owner,
     ownerOf s agentId = Ok owner ->
     ~ (owner = sender \/ isApprovedForAll s owner sender = true
        \/ getApproved s agentId = Ok sender) ->
     setAgentURI s sender agentId newURI = Revert Not_owner_or_approved) /\
  (_ownerOf s agentId = 0 ->
   setAgentURI s sender agentId newURI = Revert (ERC721NonexistentToken agentId)).
Proof.
  split; [split|split].
  - intros [s' H]. apply setAgentURI_Ok in H as (Hex & Hauth & Huri & _).
    exists (_ownerOf s agentId).
    assert (Howner : ownerOf s agentId = Ok (_ownerOf s agentId)) by by apply ownerOf_Ok.
    split; [done|]. split; [|done]. by apply (authorize_pointer s sender agentId _ Howner).
  - intros (owner & Howner & Hcap & Huri).
    apply (authorize_pointer s sender agentId _ Howner) in Hcap.
    apply ownerOf_Ok in Howner as [Howner Hne]. rewrite setAgentURI_eq.
    rewrite Howner, (bool_decide_eq_false_2 _ Hne), Hcap. cbn [negb].
    rewrite (bool_decide_eq_false_2 _ Huri). eauto.
  - intros owner Howner Hcap.
    rewrite <- (authorize_pointer s sender agentId _ Howner) in Hcap.
    apply ownerOf_Ok in Howner as [Howner Hne]. rewrite setAgentURI_eq.
    rewrite Howner, (bool_decide_eq_false_2 _ Hne).
    by destruct (authorize s sender agentId PointerClass).
  - intros Hz. rewrite setAgentURI_eq. by rewrite (bool_decide_eq_true_2 _ Hz).
Qed.

Lemma setAgentURI_succeeds_iff_witness :
  setAgentURI Fixture.registered Fixture.user2 1 Fixture.UPDATED_URI
  = Revert Not_owner_or_approved /\
  setAgentURI Fixture.registered Fixture.this 999 Fixture.UPDATED_URI
  = Revert (ERC721NonexistentToken 999).
Proof.
  destruct (setAgentURI_succeeds_iff Fixture.registered Fixture.user2 1
              Fixture.UPDATED_URI) as (_ & H & _).
  destruct (setAgentURI_succeeds_iff Fixture.registered Fixture.this 999
              Fixture.UPDATED_URI) as (_ & _ & H').
  split.
  - apply (H Fixture.this); [vm_compute; reflexivity|].
    intros [Heq|[Hop|Happ]]; [done | by vm_compute in Hop | by vm_compute in Happ].
  - apply H'. vm_compute; reflexivity.
Defined.

(** X3. A successful [setAgentURI(id, uri)] makes [uri] the pointer of [id]
    and changes nothing else: the pointers of the other records, and the
    owner, the delegate, the operators, the metadata and the id counter stay
    as they were. *)
Theorem setAgentURI_writes_one_pointer s sender agentId newURI s' :
  setAgentURI s sender agentId newURI = Ok s' ->
  tokenURI s' agentId = Ok newURI /\
  (forall id, id <> agentId -> tokenURI s' id = tokenURI s id) /\
  (forall id, ownerOf s' id = ownerOf s id /\ getApproved s' id = getApproved s id) /\
  (forall owner operator, isApprovedForAll s' owner operator
                          = isApprovedForAll s owner operator) /\
  (forall id key, getMetadata s' id key = getMetadata s id key) /\
  nextAgentId s' = nextAgentId s.
Proof.
  intros H. apply setAgentURI_Ok in H as (Hex & _ & _ & ->).
  split; [|split; [|done]].
  - rewrite tokenURI_eq.
    change (_ownerOf (emit _ (_setTokenURI s agentId newURI)) agentId)
      with (_ownerOf s agentId).
    rewrite (bool_decide_eq_false_2 _ Hex). unfold _setTokenURI. fields'.
    by rewrite lookup_insert_eq.
  - intros id Hne. rewrite !tokenURI_eq.
    change (_ownerOf (emit _ (_setTokenURI s agentId newURI)) id) with (_ownerOf s id).
    unfold _setTokenURI. fields'. by rewrite lookup_insert_ne.
Qed.

Lemma setAgentURI_writes_one_pointer_witness :
  exists s',
    setAgentURI Fixture.registered Fixture.this 1 Fixture.UPDATED_URI = Ok s' /\
    tokenURI s' 1 = Ok Fixture.UPDATED_URI /\
    (forall id key, getMetadata s' id key = getMetadata Fixture.registered id key).
Proof.
  destruct (setAgentURI Fixture.registered Fixture.this 1 Fixture.UPDATED_URI)
    as [s'|e] eqn:H; [|by vm_compute in H].
  exists s'. split; [done|].
  destruct (setAgentURI_writes_one_pointer _ _ _ _ _ H) as (H1 & _ & _ & _ & H5 & _).
  done.
Defined.

(** X4. [setMetadata] succeeds exactly when the record exists and the caller
    is its owner or an operator of its owner; the key and the value are not
    checked, so empty ones are accepted. Any other caller of an existing
    record is refused with "Not owner or approved". *)
Theorem setMetadata_succeeds_iff s sender agentId key value :
  ((exists s', setMetadata s sender agentId key value = Ok s')
   <-> exists owner,
         ownerOf s agentId = Ok owner /\
         (owner = sender \/ isApprovedForAll s owner sender = true)) /\
  (forall owner,
     ownerOf s agentId = Ok owner ->
     ~ (owner = sender \/ isApprovedForAll s owner sender = true) ->
     setMetadata s sender agentId key value = Revert Not_owner_or_approved) /\
  (_ownerOf s agentId = 0 ->
   setMetadata s sender agentId key value = Revert (ERC721NonexistentToken agentId)).
Proof.
  split; [split|split].
  - intros [s' H]. apply setMetadata_Ok in H as (Hex & Hauth & _).
    exists (_ownerOf s agentId).
    assert (Howner : ownerOf s agentId = Ok (_ownerOf s agentId)) by by apply ownerOf_Ok.
    split; [done|]. by apply (authorize_metadata s sender agentId _ Howner).
  - intros (owner & Howner & Hcap).
    apply (authorize_metadata s sender agentId _ Howner) in Hcap.
    apply ownerOf_Ok in Howner as [Howner Hne]. rewrite setMetadata_eq.
    rewrite Howner, (bool_decide_eq_false_2 _ Hne), Hcap. cbn [negb]. eauto.
  - intros owner Howner Hcap.
    rewrite <- (authorize_metadata s sender agentId _ Howner) in Hcap.
    apply ownerOf_Ok in Howner as [Howner Hne]. rewrite setMetadata_eq.
    rewrite Howner, (bool_decide_eq_false_2 _ Hne).
    by destruct (authorize s sender agentId MetadataClass).
  - intros Hz. rewrite setMetadata_eq. by rewrite (bool_decide_eq_true_2 _ Hz).
Qed.

Lemma setMetadata_succeeds_iff_witness :
  setMetadata Fixture.registered Fixture.user2 1 "" []
  = Revert Not_owner_or_approved /\
  (exists s', setMetadata Fixture.registered Fixture.this 1 "" [] = Ok s').
Proof.
  destruct (setMetadata_succeeds_iff Fixture.registered Fixture.user2 1 "" [])
    as (_ & H & _).
  destruct (setMetadata_succeeds_iff Fixture.registered Fixture.this 1 "" [])
    as ((_ & H') & _).
  split.
  - apply (H Fixture.this); [vm_compute; reflexivity|].
    intros [Heq|Hop]; [done | by vm_compute in Hop].
  - apply H'. exists Fixture.this. split; [vm_compute; reflexivity | by left].
Defined.

(** How one transaction changes the owners and the counter, the pointers
    and the metadata. *)
Lemma execute_ids chain s sender c s' :
  execute chain s sender c = Ok s' ->
  (_nextAgentId s' = _nextAgentId s /\ _owners s' = _owners s) \/
  (exists uri,
     c = Call_register uri /\ register chain s sender uri = Ok (_nextAgentId s, s') /\
     _nextAgentId s' = _nextAgentId s + 1 /\ sender <> 0 /\
     _ownerOf s (_nextAgentId s) = 0 /\
     _owners s' = <[_nextAgentId s := sender]> (_owners s)) \/
  (exists to id,
     (c = Call_transferFrom (_ownerOf s id) to id
      \/ c = Call_safeTransferFrom (_ownerOf s id) to id) /\
     _nextAgentId s' = _nextAgentId s /\ to <> 0 /\
     (sender <> 0 -> _isAuthorized s (_ownerOf s id) sender id = true) /\
     _owners s' = <[id := to]> (_owners s)).
Proof.
  destruct c as [uri|agentId newURI|agentId key value|from to tokenId|from to tokenId
                |to tokenId|operator approved]; cbn [execute]; intros H.
  - apply bind_Ok in H as [[agentId s1] [Hreg H]]. injection H as ->.
    pose proof Hreg as Hreg'.
    apply register_fields in Hreg as (-> & _ & Hs & Hfresh & _ & Ho & _ & _ & _ & _ & Hn & _).
    right; left. by exists uri.
  - apply setAgentURI_Ok in H as (_ & _ & _ & ->). by left.
  - apply setMetadata_Ok in H as (_ & _ & ->). by left.
  - apply transferFrom_fields in H as (Hto & -> & Hauth & Ho & _ & _ & _ & _ & Hn & _).
    right; right. exists to, tokenId. auto.
  - apply safeTransferFrom_Ok, transferFrom_fields
      in H as (Hto & -> & Hauth & Ho & _ & _ & _ & _ & Hn & _).
    right; right. exists to, tokenId. auto.
  - apply approve_fields in H as (_ & Ho & _ & _ & _ & _ & Hn & _). by left.
  - apply setApprovalForAll_fields in H as (Ho & _ & _ & _ & _ & Hn & _). by left.
Qed.




(** X6. The ids in use are exactly 1, ..., [nextAgentId() - 1]: in every
    reachable state a record exists if and only if its id is at least 1 and
    below the counter, so the counter is one past the highest id assigned and
    id 0 is never assigned. *)
Theorem ids_are_dense chain s agentId :
  reachable chain s ->
  (exists owner, ownerOf s agentId = Ok owner) <-> 1 <= agentId < _nextAgentId s.
Proof.
  intros Hreach.
  assert (Hdense : forall id, _ownerOf s id <> 0 <-> 1 <= id < _nextAgentId s).
  { induction Hreach as [|s sender c Hreach IH Hsender]; [cbn; intros; split; [done|lia]|].
    pose proof (reachable_invariant chain s Hreach) as Hinv.
    destruct (execute chain s sender c) as [s'|e] eqn:H; cbn [commit]; [|done].
    intros id.
    destruct (execute_ids _ _ _ _ _ H)
      as [[Hn Ho]|[(uri & _ & _ & Hn & Hs & Hfresh & Ho)|(to & id' & _ & Hn & Hto & Hauth & Ho)]].
    - rewrite Hn, (_ownerOf_same s s' id Ho). apply IH.
    - rewrite Hn, (_ownerOf_insert s s' _ sender id Ho). case_decide as Hid.
      + subst id. pose proof (inv_positive s Hinv). split; [lia|done].
      + rewrite IH. lia.
    - rewrite Hn, (_ownerOf_insert s s' id' to id Ho). case_decide as Hid; [|apply IH].
      subst id'. split; [|done]. intros _. apply IH.
      by apply (transfer_existing s sender _ id Hinv Hsender eq_refl (Hauth Hsender)). }
  rewrite <- Hdense. split.
  - intros [owner Howner]. apply ownerOf_Ok in Howner as [Howner Hne]. congruence.
  - intros Hne. exists (_ownerOf s agentId). by apply ownerOf_Ok.
Qed.

Lemma ids_are_dense_witness :
  (exists owner, ownerOf Fixture.registered 1 = Ok owner)
  <-> 1 <= 1 < _nextAgentId Fixture.registered.
Proof. apply (ids_are_dense Fixture.chain Fixture.registered 1 reachable_registered). Defined.










Lemma newURI_not_empty cfg now : Updater.newURI cfg now <> "".
Proof. unfold Updater.newURI. by destruct (Updater.baseUrl cfg). Qed.

(** X11. The pointer the updater computes is never empty, so the registry
    never refuses a refresh for its pointer: whatever the configuration and
    the clock, [setAgentURI] with that pointer succeeds for every existing
    record when sent by its owner, an operator of its owner or its delegate,
    and the record's pointer is then the one the updater computed. *)
Theorem refresh_pointer_is_accepted cfg now s sender agentId owner :
  ownerOf s agentId = Ok owner ->
  owner = sender \/ isApprovedForAll s owner sender = true
  \/ getApproved s agentId = Ok sender ->
  Updater.newURI cfg now <> "" /\
  exists s', setAgentURI s sender agentId (Updater.newURI cfg now) = Ok s' /\
             tokenURI s' agentId = Ok (Updater.newURI cfg now).
Proof.
  intros Howner Hcap. split; [apply newURI_not_empty|].
  destruct (setAgentURI_succeeds_iff s sender agentId (Updater.newURI cfg now))
    as ((_ & Hok) & _).
  destruct Hok as [s' Hs'].
  { exists owner. split; [done|]. split; [done|]. apply newURI_not_empty. }
  exists s'. split; [done|].
  by destruct (setAgentURI_writes_one_pointer _ _ _ _ _ Hs') as (? & _).
Qed.

Lemma refresh_pointer_is_accepted_witness :
  Updater.newURI Fixture.cfg 123000%Z <> "" /\
  exists s', setAgentURI Fixture.delegated Fixture.user1 1
               (Updater.newURI Fixture.cfg 123000%Z) = Ok s' /\
             tokenURI s' 1 = Ok (Updater.newURI Fixture.cfg 123000%Z).
Proof.
  apply (refresh_pointer_is_accepted Fixture.cfg 123000%Z Fixture.delegated Fixture.user1 1
           Fixture.this).
  - vm_compute; reflexivity.
  - right; right. vm_compute; reflexivity.
Defined.

(** X12. An operator approval covers both write paths and can be revoked:
    once [setApprovalForAll(operator, true)] sent by the owner of a record has
    succeeded, the operator's [setAgentURI] (non-empty pointer) and
    [setMetadata] on that record succeed; once
    [setApprovalForAll(operator, false)] has succeeded, an operator that is
    neither the owner nor the delegate of the record is refused by both with
    "Not owner or approved". *)
Theorem operator_approval_covers_both_writes s owner operator approved s1 agentId
    newURI key value :
  setApprovalForAll s owner operator approved = Ok s1 ->
  ownerOf s agentId = Ok owner ->
  newURI <> "" ->
  if approved then
    (exists s2, setAgentURI s1 operator agentId newURI = Ok s2
                /\ tokenURI s2 agentId = Ok newURI) /\
    (exists s2, setMetadata s1 operator agentId key value = Ok s2
                /\ getMetadata s2 agentId key = Ok value)
  else
    operator <> owner -> getApproved s agentId <> Ok operator ->
    setAgentURI s1 operator agentId newURI = Revert Not_owner_or_approved /\
    setMetadata s1 operator agentId key value = Revert Not_owner_or_approved.
Proof.
  intros Happ Howner Huri.
  apply setApprovalForAll_fields in Happ as (Ho & Ha & Hop & _).
  assert (Howner1 : ownerOf s1 agentId = Ok owner).
  { apply ownerOf_Ok. rewrite (_ownerOf_same s s1 _ Ho). by apply ownerOf_Ok. }
  assert (Hflag : isApprovedForAll s1 owner operator = approved).
  { unfold isApprovedForAll. by rewrite Hop, lookup_insert_eq. }
  destruct approved.
  - destruct (setAgentURI_succeeds_iff s1 operator agentId newURI) as ((_ & Hok) & _).
    destruct Hok as [s2 Hs2]; [exists owner; auto|].
    destruct (setMetadata_succeeds_iff s1 operator agentId key value) as ((_ & Hok') & _).
    destruct Hok' as [s3 Hs3]; [exists owner; auto|].
    split.
    + exists s2. split; [done|].
      by destruct (setAgentURI_writes_one_pointer _ _ _ _ _ Hs2) as (? & _).
    + exists s3. split; [done|].
      by destruct (setMetadata_then_getMetadata _ _ _ _ _ _ Hs3) as (? & _).
  - intros Hne Hdel.
    assert (Hdel1 : getApproved s1 agentId <> Ok operator).
    { intros H. apply Hdel. apply getApproved_Ok in H as [H1 H2].
      apply getApproved_Ok. rewrite (_ownerOf_same s s1 _ Ho) in H1.
      unfold _getApproved in *. by rewrite Ha in H2. }
    destruct (setAgentURI_succeeds_iff s1 operator agentId newURI) as (_ & Hno & _).
    destruct (setMetadata_succeeds_iff s1 operator agentId key value) as (_ & Hno' & _).
    split.
    + apply (Hno owner Howner1). rewrite Hflag. intros [?|[?|?]]; done.
    + apply (Hno' owner Howner1). rewrite Hflag. intros [?|?]; done.
Qed.

Lemma operator_approval_covers_both_writes_witness :
  exists s1,
    setApprovalForAll Fixture.registered Fixture.this Fixture.operator true = Ok s1 /\
    (exists s2, setAgentURI s1 Fixture.operator 1 Fixture.UPDATED_URI = Ok s2
                /\ tokenURI s2 1 = Ok Fixture.UPDATED_URI) /\
    (exists s2, setMetadata s1 Fixture.operator 1 "key" Fixture.wallet_value = Ok s2
                /\ getMetadata s2 1 "key" = Ok Fixture.wallet_value).
Proof.
  destruct (setApprovalForAll Fixture.registered Fixture.this Fixture.operator true)
    as [s1|e] eqn:H; [|by vm_compute in H].
  exists s1. split; [done|].
  apply (operator_approval_covers_both_writes Fixture.registered Fixture.this
           Fixture.operator true s1 1 Fixture.UPDATED_URI "key" Fixture.wallet_value H).
  - vm_compute; reflexivity.
  - done.
Defined.

(** X13. A new record registered by an account without code starts clean and
    disturbs nothing: after a successful [register] in a reachable state the
    new record has no delegate and reads the empty value for every metadata
    key, while the owner, the pointer, the delegate and the metadata of every
    other id, and all operator approvals, are as before. The caller must be
    without code: [_safeMint] calls the [onERC721Received] hook of a caller
    that has code after the mint and before [_setTokenURI], and in that hook
    the caller, already the owner, can reach [setMetadata], [approve] and
    [transferFrom], none of which is guarded against re-entry. For a caller
    without code no hook runs. *)
Theorem registered_record_is_fresh chain s sender uri agentId s' :
  reachable chain s ->
  chain sender = NoCode ->
  register chain s sender uri = Ok (agentId, s') ->
  ownerOf s' agentId = Ok sender /\
  tokenURI s' agentId = Ok uri /\
  getApproved s' agentId = Ok 0 /\
  (forall key, getMetadata s' agentId key = Ok []) /\
  (forall id, id <> agentId ->
     ownerOf s' id = ownerOf s id /\ tokenURI s' id = tokenURI s id /\
     getApproved s' id = getApproved s id /\
     forall key, getMetadata s' id key = getMetadata s id key) /\
  (forall owner operator,
     isApprovedForAll s' owner operator = isApprovedForAll s owner operator).
Proof.
  intros Hreach _ Hreg. pose proof (reachable_invariant chain s Hreach) as Hinv.
  apply register_fields in Hreg
    as (-> & _ & Hs & Hfresh & _ & Ho & Ha & Hop & Hu & _ & _ & Hm).
  assert (Hown : forall id, _ownerOf s' id
                            = if decide (_nextAgentId s = id) then sender else _ownerOf s id)
    by (intros id; apply (_ownerOf_insert s s' _ sender id Ho)).
  split; [|split; [|split; [|split; [|split]]]].
  - apply ownerOf_Ok. rewrite Hown. by case_decide.
  - rewrite tokenURI_eq, Hown, Hu. case_decide; [|done].
    by rewrite (bool_decide_eq_false_2 _ Hs), lookup_insert_eq.
  - apply getApproved_Ok. rewrite Hown. case_decide; [|done]. split; [done|].
    unfold _getApproved. rewrite Ha. apply (inv_delegate s Hinv _ Hfresh).
  - intros key. unfold getMetadata. by rewrite Hm, (inv_metadata s Hinv _ Hfresh).
  - intros id Hne. unfold ownerOf, getApproved, getMetadata.
    rewrite !tokenURI_eq, !_requireOwned_eq, Hown, Hu, Hm.
    case_decide; [congruence|]. rewrite lookup_insert_ne by done.
    unfold _getApproved. by rewrite Ha.
  - intros owner operator. unfold isApprovedForAll. by rewrite Hop.
Qed.

Lemma registered_record_is_fresh_witness :
  let s' := commit Fixture.registered
              (execute Fixture.chain Fixture.registered Fixture.user1
                       (Call_register Fixture.UPDATED_URI)) in
  ownerOf s' 2 = Ok Fixture.user1 /\
  tokenURI s' 2 = Ok Fixture.UPDATED_URI /\
  getApproved s' 2 = Ok 0 /\
  (forall key, getMetadata s' 2 key = Ok []) /\
  (forall id, id <> 2 ->
     ownerOf s' id = ownerOf Fixture.registered id /\
     tokenURI s' id = tokenURI Fixture.registered id /\
     getApproved s' id = getApproved Fixture.registered id /\
     forall key, getMetadata s' id key = getMetadata Fixture.registered id key) /\
  (forall owner operator,
     isApprovedForAll s' owner operator
     = isApprovedForAll Fixture.registered owner operator).
Proof.
  intros s'.
  apply (registered_record_is_fresh Fixture.chain Fixture.registered Fixture.user1
           Fixture.UPDATED_URI 2 s').
  - apply reachable_registered.
  - vm_compute; reflexivity.
  - vm_compute; reflexivity.
Defined.

End RegistryMore.

(** ** Part VI. Further properties of the updater and of its admin route *)

Section UpdaterMore.
Import Updater Trace Startup Server.
Local Open Scope Z_scope.

Lemma settles_in_try_catch {A : Type} (P : A -> Prop) (m : async A) handler :
  settles_in P m -> settles_in P (try_catch m handler).
Proof. induction 1; cbn [try_catch]; by constructor. Qed.

Lemma asks_only_bind {A B : Type} (P : asked -> Prop) (m : async A) (f : A -> async B) :
  asks_only P m -> (forall a, asks_only P (f a)) -> asks_only P (bind m f).
Proof. intros Hm Hf. induction Hm; cbn [bind]; [auto | by constructor ..]. Qed.

Lemma updateTokenURI_asks cfg v : asks_only (well_formed cfg) (updateTokenURI cfg v).
Proof.
  unfold updateTokenURI, await. cbn [try_catch].
  constructor; intros now. do 2 constructor.
  destruct (provider v); cbn [try_catch]; [|by repeat constructor].
  constructor; [done|]. intros [feeData|e]; cbn [try_catch]; [|by repeat constructor].
  constructor.
  destruct (registry v); cbn [try_catch]; [|by repeat constructor].
  constructor; [cbn; eauto|]. intros [tx|e]; cbn [try_catch]; [|by repeat constructor].
  constructor. constructor; [done|].
  intros [receipt|e]; cbn [try_catch]; by repeat constructor.
Qed.

Lemma callback_asks cfg v o : asks_only (well_formed cfg) (callback cfg v o).
Proof.
  destruct o; cbn [callback]; try unfold triggerUpdate; try destruct (registry v);
    repeat (apply asks_only_bind; [|intros; by constructor]);
    (apply updateTokenURI_asks || by constructor).
Qed.

Lemma run_sync_asks {A : Type} (P : asked -> Prop) (m : async A) now out :
  asks_only P m ->
  match run_sync m now out with
  | (Done _, _) => True
  | (Blocked q k, _) => P (label q) /\ forall r, asks_only P (k r)
  end.
Proof.
  intros Hm. revert out.
  induction Hm as [a|e|k _ IH|l k _ IH|X q k Hq Hk _]; intros out; cbn [run_sync];
    [done | done | apply IH | apply IH | done].
Qed.

Lemma requests_asks {A : Type} (P : asked -> Prop) net now (m : async A) :
  asks_only P m -> Forall P (requests net now m).
Proof.
  induction 1 as [a|e|k _ IH|l k _ IH|X q k Hq _ IH]; cbn [requests];
    [constructor | constructor | apply IH | apply IH | by constructor].
Qed.

Lemma disciplined_spawn cfg o p : disciplined cfg p -> disciplined cfg (spawn cfg o p).
Proof.
  intros Hp. unfold spawn, disciplined.
  pose proof (run_sync_asks _ _ (clock p) (console p) (callback_asks cfg (vars p) o)) as Hcb.
  destruct (run_sync (callback cfg (vars p) o) (clock p) (console p)) as [[r|X q k] out];
    cbn [running]; [done|].
  apply Forall_app. split; [done|]. by apply Forall_singleton.
Qed.

Lemma disciplined_step cfg p e : disciplined cfg p -> disciplined cfg (step cfg p e).
Proof.
  intros Hp. destruct e as [i|i| |i net|t]; cbn [step].
  - destruct (cron p !! i); [by apply disciplined_spawn | done].
  - destruct (timeouts p !! i); [|done].
    exact (disciplined_spawn cfg warmup (mkProcess _ _ _ _ _ _ _) Hp).
  - by apply disciplined_spawn.
  - destruct (running p !! i) as [t|] eqn:Ht; [|done].
    pose proof (proj1 (Forall_lookup _ _) Hp i t Ht) as [_ Hk].
    specialize (Hk (net _ (awaited t))).
    apply (run_sync_asks _ _ (clock p) (console p)) in Hk.
    destruct (run_sync (resume t (net _ (awaited t))) (clock p) (console p))
      as [[r|X q k] out]; unfold disciplined; cbn [running].
    + by apply Forall_delete.
    + by apply Forall_insert.
  - done.
Qed.

Lemma disciplined_run cfg p es : disciplined cfg p -> disciplined cfg (run cfg p es).
Proof.
  revert p. induction es as [|e es IH]; intros p Hp; [done|].
  rewrite run_cons. apply IH. by apply disciplined_step.
Qed.

(** X16. The only transaction the updater ever sends is
    [setAgentURI(config.agentId, pointer, { gasLimit: 100000 })] with a
    pointer of the form base pointer plus version: after any inputs, in any
    interleaving of runs, every request a suspended run is waiting on is the
    fee query, such a submission, or the wait for a transaction, and the same
    holds of every request of a refresh run to its end. *)
Theorem updater_only_sends_capped_setAgentURI cfg es v net now :
  (forall t, t ∈ running (run cfg (initUpdater cfg boot) es) ->
             well_formed cfg (label (awaited t))) /\
  Forall (well_formed cfg) (requests net now (updateTokenURI cfg v)) /\
  Forall (well_formed cfg) (requests net now (triggerUpdate cfg v)).
Proof.
  split; [|split].
  - assert (Hinit : disciplined cfg (initUpdater cfg boot)).
    { unfold initUpdater, disciplined. destruct (_ || _); cbn [running boot]; constructor. }
    pose proof (disciplined_run cfg _ es Hinit) as Hrun.
    intros t Ht. by apply (proj1 (Forall_forall _ _) Hrun t Ht).
  - apply requests_asks, updateTokenURI_asks.
  - apply requests_asks. unfold triggerUpdate. destruct (registry v); [|constructor].
    apply asks_only_bind; [apply updateTokenURI_asks|]. intros; constructor.
Qed.

Lemma updater_only_sends_capped_setAgentURI_witness :
  (forall t, t ∈ running Fixture.overlap -> well_formed Fixture.cfg (label (awaited t))) /\
  Forall (well_formed Fixture.cfg)
         (requests Fixture.net_ok 123000
                   (updateTokenURI Fixture.cfg (vars Fixture.started))).
Proof.
  destruct (updater_only_sends_capped_setAgentURI Fixture.cfg
              [clock_reads 1700000000000; cron_tick 0; manual_trigger;
               settle 0 Fixture.net_ok; settle 1 Fixture.net_ok]
              (vars Fixture.started) Fixture.net_ok 123000) as (H1 & H2 & _).
  split; [exact H1 | exact H2].
Defined.

(** X17. Within one refresh the requests come in a fixed order and stop at
    the first failure: the fee query first; [setAgentURI] only once the fee
    data have arrived, so a failed fee query means nothing is submitted in
    that run; the wait only for the transaction that was submitted. A run
    sends at most one [setAgentURI]. *)
Theorem refresh_requests_in_order cfg v net now :
  configured v ->
  requests net now (updateTokenURI cfg v)
  = match net _ getFeeData with
    | Rejected _ => [asked_getFeeData]
    | Fulfilled _ =>
        match net _ (send_setAgentURI (agentId cfg) (newURI cfg now) 100000) with
        | Rejected _ =>
            [asked_getFeeData; asked_setAgentURI (agentId cfg) (newURI cfg now) 100000]
        | Fulfilled tx =>
            [asked_getFeeData; asked_setAgentURI (agentId cfg) (newURI cfg now) 100000;
             asked_wait tx]
        end
    end.
Proof.
  intros [[pv Hpv] [rg Hrg]]. unfold updateTokenURI, await. rewrite Hpv, Hrg.
  cbn [try_catch requests label].
  destruct (net _ getFeeData) as [feeData|e]; cbn [try_catch requests label]; [|done].
  destruct (net _ (send_setAgentURI _ _ _)) as [tx|e]; cbn [try_catch requests label];
    [|done].
  by destruct (net _ (wait tx)).
Qed.

Lemma refresh_requests_in_order_witness :
  requests Fixture.net_down 123000 (updateTokenURI Fixture.cfg (vars Fixture.started))
  = [asked_getFeeData] /\
  requests Fixture.net_ok 123000 (updateTokenURI Fixture.cfg (vars Fixture.started))
  = [asked_getFeeData;
     asked_setAgentURI 1 "https://api.example.com/erc8004/metadata?v=123" 100000;
     asked_wait (mkTx "0xhash")].
Proof.
  split.
  - apply (refresh_requests_in_order Fixture.cfg (vars Fixture.started) Fixture.net_down
             123000). split; vm_compute; eauto.
  - apply (refresh_requests_in_order Fixture.cfg (vars Fixture.started) Fixture.net_ok
             123000). split; vm_compute; eauto.
Defined.

Lemma idle_step cfg p e : idle p -> idle (step cfg p e).
Proof.
  intros (Hrg & Hcron & Htime & Hrun & Hout & Hfin).
  destruct e as [i|i| |i net|t]; cbn [step].
  - by rewrite Hcron.
  - by rewrite Htime.
  - unfold spawn, callback, triggerUpdate. rewrite Hrg. cbn [bind run_sync].
    repeat split; cbn [vars cron timeouts running console finished]; try done.
    apply Forall_app. split; [done|]. by apply Forall_singleton.
  - by rewrite Hrun.
  - done.
Qed.

Lemma idle_run cfg p es : idle p -> idle (run cfg p es).
Proof.
  revert p. induction es as [|e es IH]; intros p Hp; [done|].
  rewrite run_cons. apply IH. by apply idle_step.
Qed.

(** X14. Without the private key or without the registry address the updater
    stays off for good: [initUpdater] only logs the warning, schedules no
    cron job and no warm-up, and after any inputs no run was ever started, no
    request was made and nothing more was logged; every manual trigger was
    answered "Updater not configured". *)
Theorem unconfigured_updater_stays_off cfg es net now :
  updaterPrivateKey cfg = "" \/ registryAddress cfg = "" ->
  let p := run cfg (initUpdater cfg boot) es in
  cron p = [] /\ timeouts p = [] /\ running p = [] /\
  console p = [warn_not_configured] /\
  Forall (fun f => f = (manual, Fulfilled (str "Updater not configured"))) (finished p) /\
  complete net now (triggerUpdate cfg (vars p)) (console p)
  = (Fulfilled "Updater not configured", console p) /\
  requests net now (triggerUpdate cfg (vars p)) = [].
Proof.
  intros Hcfg p.
  assert (Hidle : idle (initUpdater cfg boot)).
  { unfold initUpdater.
    assert (bool_decide (updaterPrivateKey cfg = "")
            || bool_decide (registryAddress cfg = "") = true) as ->.
    { destruct Hcfg as [-> | ->]; [done|]. by rewrite orb_true_r. }
    repeat split; constructor. }
  pose proof (idle_run cfg _ es Hidle) as (Hrg & Hcron & Htime & Hrun & Hout & Hfin).
  fold p in Hrg, Hcron, Htime, Hrun, Hout, Hfin.
  repeat split; try done; unfold triggerUpdate; by rewrite Hrg.
Qed.

Lemma unconfigured_updater_stays_off_witness :
  let cfg := mkConfig "https://api.example.com" "https://mainnet.base.org" "" 1
                      "0x0123456789abcdef0123456789abcdef0123456789abcdef0123456789abcdef" 6 in
  let p := run cfg (initUpdater cfg boot) [cron_tick 0; timeout_fires 0; manual_trigger] in
  running p = [] /\
  finished p = [(manual, Fulfilled (str "Updater not configured"))] /\
  console p = [warn_not_configured].
Proof.
  intros cfg p.
  destruct (unconfigured_updater_stays_off cfg [cron_tick 0; timeout_fires 0; manual_trigger]
              Fixture.net_ok 0) as (_ & _ & Hrun & Hout & _); [by right|].
  split; [exact Hrun|]. split; [vm_compute; reflexivity | exact Hout].
Defined.

Lemma filter_length_delete {A : Type} (P : A -> Prop) `{!forall x, Decision (P x)}
    (l : list A) (i : nat) (x : A) :
  l !! i = Some x ->
  length (filter P l) = (length (filter P (delete i l)) + (if decide (P x) then 1 else 0))%nat.
Proof.
  revert i. induction l as [|a l IH]; intros i Hi; [done|].
  destruct i as [|i]; cbn in Hi.
  - injection Hi as ->. cbn [delete list_delete]. rewrite filter_cons.
    destruct (decide (P x)); cbn [length]; [|by rewrite Nat.add_0_r].
    by rewrite Nat.add_1_r.
  - cbn [delete list_delete]. rewrite !filter_cons. specialize (IH i Hi).
    destruct (decide (P a)); cbn [length Nat.add]; [f_equal|]; exact IH.
Qed.

Lemma filter_length_insert {A : Type} (P : A -> Prop) `{!forall x, Decision (P x)}
    (l : list A) (i : nat) (x y : A) :
  l !! i = Some x -> (P x <-> P y) ->
  length (filter P (<[i := y]> l)) = length (filter P l).
Proof.
  revert i. induction l as [|a l IH]; intros i Hi Hxy; [done|].
  destruct i as [|i]; cbn in Hi.
  - injection Hi as ->. cbn [insert list_insert]. rewrite !filter_cons.
    destruct (decide (P x)), (decide (P y)); cbn [length]; tauto || done.
  - cbn [insert list_insert]. rewrite !filter_cons. specialize (IH i Hi Hxy).
    destruct (decide (P a)); cbn [length]; [f_equal|]; exact IH.
Qed.

Lemma started_by_spawn cfg o o' p :
  started_by o (spawn cfg o' p)
  = (started_by o p + (if decide (o' = o) then 1 else 0))%nat.
Proof.
  unfold spawn, started_by.
  destruct (run_sync (callback cfg (vars p) o') (clock p) (console p)) as [[r|X q k] out];
    cbn [running finished]; rewrite filter_app, length_app, filter_cons, filter_nil;
    cbn [fst origin]; destruct (decide (o' = o)); cbn [length]; lia.
Qed.

Lemma warmup_conserved cfg p e :
  (length (timeouts (step cfg p e)) + started_by warmup (step cfg p e)
   = length (timeouts p) + started_by warmup p)%nat.
Proof.
  destruct e as [i|i| |i net|t]; cbn [step].
  - destruct (cron p !! i); [|done]. rewrite started_by_spawn.
    assert (timeouts (spawn cfg recurring p) = timeouts p) as ->.
    { unfold spawn. by destruct (run_sync _ _ _) as [[r|X q k] out]. }
    case_decide; [done|lia].
  - destruct (timeouts p !! i) as [d|] eqn:Hd; [|done]. rewrite started_by_spawn.
    match goal with
    | |- context [timeouts (spawn cfg warmup ?q)] =>
        assert (timeouts (spawn cfg warmup q) = delete i (timeouts p)) as ->
    end.
    { unfold spawn. by destruct (run_sync _ _ _) as [[r|X q k] out]. }
    rewrite length_delete by eauto.
    pose proof (lookup_lt_Some _ _ _ Hd).
    case_decide; [|done]. unfold started_by. cbn [running finished]. lia.
  - rewrite started_by_spawn.
    assert (timeouts (spawn cfg manual p) = timeouts p) as ->.
    { unfold spawn. by destruct (run_sync _ _ _) as [[r|X q k] out]. }
    case_decide; [done|lia].
  - destruct (running p !! i) as [t|] eqn:Ht; [|done].
    destruct (run_sync (resume t (net _ (awaited t))) (clock p) (console p))
      as [[r|X q k] out]; unfold started_by; cbn [timeouts running finished].
    + rewrite (filter_length_delete (fun t => origin t = warmup) (running p) i t Ht).
      rewrite filter_app, length_app, filter_cons, filter_nil. cbn [fst].
      destruct (decide (origin t = warmup)); cbn [length]; lia.
    + rewrite (filter_length_insert (fun t => origin t = warmup) (running p) i t); done.
  - done.
Qed.

Lemma timeouts_spawn cfg o p : timeouts (spawn cfg o p) = timeouts p.
Proof. unfold spawn. by destruct (run_sync _ _ _) as [[r|X q k] out]. Qed.

(** The timers only go: an input leaves the pending timers as they are or
    takes one away. *)
Lemma timeouts_step cfg p e :
  timeouts (step cfg p e) = timeouts p
  \/ exists i, is_Some (timeouts p !! i) /\ timeouts (step cfg p e) = delete i (timeouts p).
Proof.
  destruct e as [i|i| |i net|t]; cbn [step].
  - destruct (cron p !! i); [|by left]. left. apply timeouts_spawn.
  - destruct (timeouts p !! i) as [d|] eqn:Hd; [|by left].
    right. exists i. split; [by rewrite Hd|]. by rewrite timeouts_spawn.
  - left. apply timeouts_spawn.
  - destruct (running p !! i); [|by left].
    left. by destruct (run_sync _ _ _) as [[r|X q k] out].
  - by left.
Qed.

(** When no statement throws, [initUpdater()] leaves the process of
    [Updater.initUpdater]. *)
Lemma initUpdater_returns lib cfg :
  (initUpdater_outcome lib cfg boot).2 = None ->
  (initUpdater_outcome lib cfg boot).1 = initUpdater cfg boot.
Proof.
  unfold initUpdater_outcome, initUpdater.
  destruct (_ || _); [done|].
  destruct (JsonRpcProvider lib _); [done|]. destruct (Wallet lib _); [done|].
  destruct (Contract lib _); [done|]. by destruct (schedule lib _).
Qed.

(** [initUpdater()] arms the warm-up timer only as its last statement. *)
Lemma initUpdater_outcome_timeouts lib cfg :
  let start := initUpdater_outcome lib cfg boot in
  running start.1 = [] /\ finished start.1 = [] /\
  timeouts start.1
  = if bool_decide (updaterPrivateKey cfg = "") || bool_decide (registryAddress cfg = "")
    then []
    else match start.2 with None => [10000] | Some _ => [] end.
Proof.
  unfold initUpdater_outcome.
  destruct (_ || _); [done|].
  destruct (JsonRpcProvider lib _); [done|]. destruct (Wallet lib _); [done|].
  destruct (Contract lib _); [done|]. by destruct (schedule lib _).
Qed.

(** X15. The warm-up refresh happens at most once, and only when
    [initUpdater()] came to its end. Whatever the libraries accept, after
    [initUpdater()] and any inputs at most one warm-up run was ever started.
    When [initUpdater()] returned on a configured updater, either the 10 s
    warm-up timer is still pending and no warm-up run was started, or it is
    gone and exactly one was. When the updater is not configured, or a
    constructor or [cron.schedule] threw (they come before [setTimeout] and
    nothing catches), there is no timer and no warm-up run ever starts. *)
Theorem warmup_runs_at_most_once lib cfg es :
  let start := initUpdater_outcome lib cfg boot in
  let p := run cfg start.1 es in
  (started_by warmup p <= 1)%nat /\
  (start.2 = None -> updaterPrivateKey cfg <> "" -> registryAddress cfg <> "" ->
   (timeouts p = [10000] /\ started_by warmup p = 0%nat) \/
   (timeouts p = [] /\ started_by warmup p = 1%nat)) /\
  (start.2 <> None \/ updaterPrivateKey cfg = "" \/ registryAddress cfg = "" ->
   timeouts p = [] /\ started_by warmup p = 0%nat).
Proof.
  intros start p.
  destruct (initUpdater_outcome_timeouts lib cfg) as (Hrun & Hfin & Htime).
  fold start in Hrun, Hfin, Htime.
  assert (Hsum : (length (timeouts p) + started_by warmup p = length (timeouts start.1))%nat
                 /\ (timeouts p = timeouts start.1 \/ timeouts p = [])
                 /\ (timeouts start.1 = [10000] \/ timeouts start.1 = [])).
  { assert (H0 : timeouts start.1 = [10000] \/ timeouts start.1 = []).
    { rewrite Htime. destruct (_ || _); [by right|]. destruct (start.2); [by right|by left]. }
    split; [|split; [|done]].
    - subst p. induction es as [|e es IH] using rev_ind.
      + unfold run, started_by. cbn [foldl]. rewrite Hrun, Hfin. cbn. lia.
      + unfold run in *. rewrite foldl_app. cbn [foldl]. by rewrite warmup_conserved.
    - subst p. induction es as [|e es IH] using rev_ind; [by left|].
      unfold run in *. rewrite foldl_app. cbn [foldl].
      set (q := foldl (step cfg) start.1 es) in *.
      destruct (timeouts_step cfg q e) as [->|(i & Hi & ->)]; [done|].
      right. destruct IH as [IH|IH]; rewrite IH in *; [|by destruct Hi].
      destruct H0 as [H0|H0]; rewrite H0 in *; [|by destruct Hi].
      destruct i as [|i]; [done|]. by destruct Hi. }
  destruct Hsum as (Hsum & Hp & H0).
  split; [|split].
  - destruct H0 as [H0|H0]; rewrite H0 in Hsum; cbn [length] in Hsum; lia.
  - intros Hret Hkey Haddr.
    assert (Hstart : timeouts start.1 = [10000]).
    { rewrite Htime, Hret.
      by rewrite (bool_decide_eq_false_2 _ Hkey), (bool_decide_eq_false_2 _ Haddr). }
    rewrite Hstart in *. cbn [length] in Hsum.
    destruct Hp as [Hp|Hp]; rewrite Hp in *; cbn [length] in Hsum;
      [left | right]; split; (done || lia).
  - intros Hoff.
    assert (Hstart : timeouts start.1 = []).
    { rewrite Htime. destruct (_ || _) eqn:Hcfg; [done|].
      apply orb_false_iff in Hcfg as [Hkey Haddr].
      apply bool_decide_eq_false in Hkey, Haddr.
      destruct Hoff as [Hthrown|[?|?]]; [|done..]. by destruct (start.2). }
    rewrite Hstart in *. cbn [length] in Hsum.
    destruct Hp as [Hp|Hp]; rewrite Hp in *; cbn [length] in Hsum; split; (done || lia).
Qed.

Lemma warmup_runs_at_most_once_witness :
  (let p := run Fixture.cfg (initUpdater_outcome lenient Fixture.cfg boot).1
                [timeout_fires 0; timeout_fires 0; settle 0 Fixture.net_down] in
   timeouts p = [] /\ started_by warmup p = 1%nat) /\
  (let p := run Fixture.cfg (initUpdater_outcome rejects_key Fixture.cfg boot).1
                [timeout_fires 0; manual_trigger] in
   timeouts p = [] /\ started_by warmup p = 0%nat) /\
  (let p := run Fixture.cfg (initUpdater_outcome rejects_schedule Fixture.cfg boot).1
                [timeout_fires 0; cron_tick 0] in
   timeouts p = [] /\ started_by warmup p = 0%nat).
Proof.
  split; [|split].
  - destruct (warmup_runs_at_most_once lenient Fixture.cfg
                [timeout_fires 0; timeout_fires 0; settle 0 Fixture.net_down])
      as (_ & Hret & _).
    destruct Hret as [[Hp _]|Hp]; [done..| |exact Hp].
    by vm_compute in Hp.
  - destruct (warmup_runs_at_most_once rejects_key Fixture.cfg
                [timeout_fires 0; manual_trigger]) as (_ & _ & Hoff).
    apply Hoff. by left.
  - destruct (warmup_runs_at_most_once rejects_schedule Fixture.cfg
                [timeout_fires 0; cron_tick 0]) as (_ & _ & Hoff).
    apply Hoff. by left.
Defined.

Lemma force_update_settles cfg v adminApiKey req :
  adminAuth adminApiKey req = next ->
  settles_in
    (fun r => r = mkResponse 200
                    (status_ok (match registry v with
                                | Some _ => "Update triggered"
                                | None => "Updater not configured"
                                end)))
    (force_update cfg v adminApiKey req).
Proof.
  intros Hnext. unfold force_update. rewrite Hnext.
  apply settles_in_try_catch.
  eapply settles_in_bind; [apply triggerUpdate_settles|].
  intros result [= ->]. by constructor.
Qed.

(** X18. The admin route: with no admin key configured every request is
    answered 503; with a key configured, a request whose key (the
    [x-api-key] header if it is non-empty, the [apiKey] query parameter
    otherwise) differs from it is answered 401; in both cases no refresh is
    started. A request with the right key is always answered 200 with
    "Update triggered" or, on an unconfigured updater, "Updater not
    configured", whatever happened to the refresh: the 500 "Update failed"
    answer is never given. *)
Theorem force_update_answers cfg v adminApiKey req net now out :
  let answer := complete net now (force_update cfg v adminApiKey req) out in
  let apiKey := or_else (header_x_api_key req) (query_apiKey req) in
  (adminApiKey = "" ->
   answer = (Fulfilled (mkResponse 503 (error "Admin API not configured")), out)
   /\ requests net now (force_update cfg v adminApiKey req) = []) /\
  (adminApiKey <> "" -> apiKey <> Some adminApiKey ->
   answer = (Fulfilled (mkResponse 401 (error "Unauthorized")), out)
   /\ requests net now (force_update cfg v adminApiKey req) = []) /\
  (adminApiKey <> "" -> apiKey = Some adminApiKey ->
   answer.1 = Fulfilled (mkResponse 200
                           (status_ok (match registry v with
                                       | Some _ => "Update triggered"
                                       | None => "Updater not configured"
                                       end)))) /\
  answer.1 <> Fulfilled (mkResponse 500 (error "Update failed")).
Proof.
  intros answer apiKey.
  assert (H503 : adminApiKey = "" ->
                 force_update cfg v adminApiKey req
                 = Return (mkResponse 503 (error "Admin API not configured"))).
  { intros ->. reflexivity. }
  assert (H401 : adminApiKey <> "" -> apiKey <> Some adminApiKey ->
                 force_update cfg v adminApiKey req
                 = Return (mkResponse 401 (error "Unauthorized"))).
  { intros Hk Hne. unfold force_update, adminAuth. fold apiKey.
    by rewrite (bool_decide_eq_false_2 _ Hk), (bool_decide_eq_false_2 _ Hne). }
  assert (H200 : adminApiKey <> "" -> apiKey = Some adminApiKey ->
                 adminAuth adminApiKey req = next).
  { intros Hk Heq. unfold adminAuth. fold apiKey.
    by rewrite (bool_decide_eq_false_2 _ Hk), (bool_decide_eq_true_2 _ Heq). }
  split; [|split; [|split]].
  - intros Hk. subst answer. by rewrite (H503 Hk).
  - intros Hk Hne. subst answer. by rewrite (H401 Hk Hne).
  - intros Hk Heq.
    destruct (complete_settles _ net now _ out
                (force_update_settles cfg v adminApiKey req (H200 Hk Heq)))
      as (r & out' & Hc & ->).
    subst answer. by rewrite Hc.
  - destruct (decide (adminApiKey = "")) as [Hk|Hk].
    { subst answer. by rewrite (H503 Hk). }
    destruct (decide (apiKey = Some adminApiKey)) as [Heq|Hne].
    + destruct (complete_settles _ net now _ out
                  (force_update_settles cfg v adminApiKey req (H200 Hk Heq)))
        as (r & out' & Hc & ->).
      subst answer. by rewrite Hc.
    + subst answer. by rewrite (H401 Hk Hne).
Qed.

Lemma force_update_answers_witness :
  (complete Fixture.net_down 0
     (force_update Fixture.cfg (vars Fixture.started) "secret"
        (mkRequest (Some "secret") None)) []).1
  = Fulfilled (mkResponse 200 (status_ok "Update triggered")) /\
  complete Fixture.net_ok 0
    (force_update Fixture.cfg (vars Fixture.started) "secret"
       (mkRequest (Some "guess") (Some "secret"))) []
  = (Fulfilled (mkResponse 401 (error "Unauthorized")), []).
Proof.
  destruct (force_update_answers Fixture.cfg (vars Fixture.started) "secret"
              (mkRequest (Some "secret") None) Fixture.net_down 0 [])
    as (_ & _ & H200 & _).
  destruct (force_update_answers Fixture.cfg (vars Fixture.started) "secret"
              (mkRequest (Some "guess") (Some "secret")) Fixture.net_ok 0 [])
    as (_ & H401 & _).
  split.
  - apply H200; done.
  - apply H401; done.
Defined.

End UpdaterMore.

(** ** Part VII. Properties of the card helpers and of the stats service *)

Section SvgFacts.
Import Svg.

Lemma append_cons a (s1 s2 : string) : String a s1 +:+ s2 = String a (s1 +:+ s2).
Proof. reflexivity. Qed.

Lemma append_nil (s : string) : "" +:+ s = s.
Proof. reflexivity. Qed.

Ltac reduce_append := rewrite ?append_cons, ?append_nil in *.

Lemma append_assoc (s1 s2 s3 : string) : s1 +:+ s2 +:+ s3 = (s1 +:+ s2) +:+ s3.
Proof. induction s1 as [|a s1 IH]; [done|]. reduce_append. by rewrite IH. Qed.

Lemma replace_all_app c by_ s1 s2 :
  replace_all c by_ (s1 +:+ s2) = replace_all c by_ s1 +:+ replace_all c by_ s2.
Proof.
  induction s1 as [|a s1 IH]; [done|]. reduce_append. cbn [replace_all].
  rewrite IH. destruct (bool_decide (a = c)); [|done]. apply append_assoc.
Qed.

Lemma occurs_app c s1 s2 : occurs c (s1 +:+ s2) = occurs c s1 || occurs c s2.
Proof.
  induction s1 as [|a s1 IH]; [done|]. reduce_append. cbn [occurs].
  by rewrite IH, orb_assoc.
Qed.

(** Each character becomes its entity, whatever follows it. *)
Lemma escapeXml_cons a rest : escapeXml (String a rest) = entity a +:+ escapeXml rest.
Proof.
  unfold escapeXml.
  assert (Hamp : replace_all amp "&amp;" (String a rest)
                 = (if bool_decide (a = amp) then "&amp;" else String a "")
                   +:+ replace_all amp "&amp;" rest).
  { cbn [replace_all]. by destruct (bool_decide (a = amp)). }
  rewrite Hamp, !replace_all_app. f_equal.
  unfold entity. destruct (bool_decide (a = amp)) eqn:E1; [reflexivity|].
  cbn [replace_all].
  destruct (bool_decide (a = lt)) eqn:E2; [reflexivity|]. cbn [replace_all].
  destruct (bool_decide (a = gt)) eqn:E3; [reflexivity|]. cbn [replace_all].
  destruct (bool_decide (a = quot)) eqn:E4; [reflexivity|]. cbn [replace_all].
  by destruct (bool_decide (a = apos)) eqn:E5.
Qed.

Lemma escapeXml_each str : escapeXml str = escape_each str.
Proof.
  induction str as [|a rest IH]; [done|]. by rewrite escapeXml_cons, IH.
Qed.

Lemma entity_safe a c :
  c = lt \/ c = gt \/ c = quot \/ c = apos -> occurs c (entity a) = false.
Proof.
  intros Hc. unfold entity.
  repeat (case_bool_decide; [by destruct Hc as [->|[->|[->| ->]]]|]).
  cbn [occurs]. rewrite orb_false_r. apply bool_decide_eq_false_2.
  destruct Hc as [->|[->|[->| ->]]]; done.
Qed.

Lemma entity_inj a b x y : entity a +:+ x = entity b +:+ y -> a = b /\ x = y.
Proof.
  unfold entity, amp, lt, gt, quot, apos.
  repeat case_bool_decide; subst; reduce_append; intros Heq; by simplify_eq.
Qed.

(** X19. [escapeXml] replaces each of [&], [<], [>], the double quote and the
    apostrophe by its entity and leaves every other character alone; the
    five replacements never touch an entity written by an earlier one. So the
    result contains no [<], [>], double quote or apostrophe, and a text
    without the five characters is returned unchanged. *)
Theorem escapeXml_writes_entities str :
  escapeXml str = escape_each str /\
  occurs lt (escapeXml str) = false /\ occurs gt (escapeXml str) = false /\
  occurs quot (escapeXml str) = false /\ occurs apos (escapeXml str) = false /\
  (occurs amp str = false -> occurs lt str = false -> occurs gt str = false ->
   occurs quot str = false -> occurs apos str = false -> escapeXml str = str).
Proof.
  split; [apply escapeXml_each|]. rewrite escapeXml_each.
  assert (Hsafe : forall c, c = lt \/ c = gt \/ c = quot \/ c = apos ->
                            occurs c (escape_each str) = false).
  { intros c Hc. induction str as [|a rest IH]; [done|].
    cbn [escape_each]. by rewrite occurs_app, entity_safe, IH. }
  repeat (split; [apply Hsafe; auto|]).
  clear Hsafe. induction str as [|a rest IH]; [done|]. cbn [occurs escape_each].
  intros [H1 H1']%orb_false_iff [H2 H2']%orb_false_iff [H3 H3']%orb_false_iff
         [H4 H4']%orb_false_iff [H5 H5']%orb_false_iff.
  rewrite (IH H1' H2' H3' H4' H5'). unfold entity. by rewrite H1, H2, H3, H4, H5.
Qed.

Lemma escapeXml_writes_entities_witness :
  escapeXml "Aave" = "Aave".
Proof.
  destruct (escapeXml_writes_entities "Aave") as (_ & _ & _ & _ & _ & H).
  apply H; reflexivity.
Defined.

(** X20. [escapeXml] loses nothing: two texts with the same escaped form are
    the same text. *)
Theorem escapeXml_is_injective s1 s2 : escapeXml s1 = escapeXml s2 -> s1 = s2.
Proof.
  rewrite !escapeXml_each. revert s2.
  induction s1 as [|a s1 IH]; intros [|b s2]; cbn [escape_each]; [done| | |].
  - unfold entity. repeat case_bool_decide; done.
  - unfold entity. repeat case_bool_decide; done.
  - intros [-> H]%entity_inj. by rewrite (IH _ H).
Qed.

Lemma escapeXml_is_injective_witness :
  String Svg.lt "b" = "<b".
Proof. apply (escapeXml_is_injective (String Svg.lt "b") "<b"). reflexivity. Defined.

Lemma length_append (s1 s2 : string) :
  String.length (s1 +:+ s2) = (String.length s1 + String.length s2)%nat.
Proof.
  induction s1 as [|a s1 IH]; [done|]. reduce_append. cbn [String.length]. by rewrite IH.
Qed.

Lemma length_substring (n m : nat) (s : string) :
  (n + m <= String.length s)%nat -> String.length (String.substring n m s) = m.
Proof.
  revert n m. induction s as [|a s IH]; intros n m Hle; cbn [String.length] in Hle.
  - assert (n = 0 /\ m = 0)%nat as [-> ->] by lia. done.
  - destruct n as [|n]; cbn [String.substring].
    + destruct m as [|m]; [done|]. cbn [String.length]. rewrite IH; [done|lia].
    + apply IH. lia.
Qed.

(** X21. [truncateAddress] never returns an empty text and never more than
    13 characters: an empty address reads "Not Set", an address of 1 to 9
    characters is returned as it is, and a longer one becomes its first six
    characters, three dots and its last four characters. *)
Theorem truncateAddress_shape address :
  truncateAddress address <> "" /\
  (String.length (truncateAddress address) <= 13)%nat /\
  (address = "" -> truncateAddress address = "Not Set") /\
  (0 < String.length address < 10 -> truncateAddress address = address)%nat /\
  (10 <= String.length address ->
   String.length (truncateAddress address) = 13 /\
   (forall i, i < 6 -> String.get i (truncateAddress address) = String.get i address) /\
   (forall i, i < 3 -> String.get (6 + i) (truncateAddress address) = Some "."%char) /\
   (forall i, i < 4 -> String.get (9 + i) (truncateAddress address)
                       = String.get (String.length address - 4 + i) address))%nat.
Proof.
  unfold truncateAddress.
  destruct (decide (address = "")) as [->|Hne].
  { rewrite (bool_decide_eq_true_2 ("" = "")) by done. cbn [orb String.length].
    split; [done|]. split; [cbn; lia|]. split; [done|]. split; intros; lia. }
  rewrite (bool_decide_eq_false_2 _ Hne). cbn [orb].
  assert (0 < String.length address)%nat as Hpos by (destruct address; cbn; (done || lia)).
  case_bool_decide as Hlen.
  - repeat split; try done; lia.
  - assert (Hl6 : String.length (String.substring 0 6 address) = 6%nat)
      by (apply length_substring; lia).
    assert (Hl4 : String.length (String.substring (String.length address - 4) 4 address)
                  = 4%nat) by (apply length_substring; lia).
    assert (Hlen13 : String.length
              (String.substring 0 6 address +:+ "..."
               +:+ String.substring (String.length address - 4) 4 address) = 13%nat).
    { rewrite !length_append, Hl6, Hl4. done. }
    split; [intros H; by rewrite H in Hlen13|].
    split; [lia|]. split; [done|]. split; [lia|]. intros _.
    split; [done|]. split; [|split].
    + intros i Hi. rewrite <- String.append_correct1 by lia.
      rewrite String.substring_correct1 by lia. f_equal. lia.
    + intros i Hi.
      replace (6 + i)%nat with (i + String.length (String.substring 0 6 address))%nat by lia.
      rewrite <- String.append_correct2.
      by destruct i as [|[|[|i]]]; [..|lia].
    + intros i Hi.
      replace (9 + i)%nat
        with ((i + 3) + String.length (String.substring 0 6 address))%nat by lia.
      rewrite <- String.append_correct2.
      replace (i + 3)%nat with (i + String.length "...")%nat by done.
      rewrite <- String.append_correct2.
      rewrite String.substring_correct1 by lia. f_equal. lia.
Qed.

Lemma truncateAddress_shape_witness :
  truncateAddress "0x2031C13F4927E3f97Eba0066BA330927A77EB540" = "0x2031...B540" /\
  String.length (truncateAddress "0x2031C13F4927E3f97Eba0066BA330927A77EB540") = 13%nat.
Proof.
  destruct (truncateAddress_shape "0x2031C13F4927E3f97Eba0066BA330927A77EB540")
    as (_ & _ & _ & _ & H).
  destruct H as (H & _); [cbn; lia|]. split; [reflexivity | exact H].
Defined.

End SvgFacts.

Section StatsFacts.
Import Stats.
Local Open Scope Z_scope.

Lemma found_is_filter (Q : string -> bool) (ps acc : list string) :
  NoDup ps -> (forall p, p ∈ ps -> p ∉ acc) ->
  foldl (fun found protocol =>
           if Q protocol && negb (array_includes found protocol)
           then found ++ [protocol] else found) acc ps
  = acc ++ filter (fun p => Q p = true) ps.
Proof.
  set (f := fun (found : list string) (protocol : string) =>
              if Q protocol && negb (array_includes found protocol)
              then found ++ [protocol] else found).
  revert acc. induction ps as [|p ps IH]; intros acc Hdup Hfresh.
  - by rewrite app_nil_r.
  - apply NoDup_cons in Hdup as [Hp Hdup]. cbn [foldl]. rewrite filter_cons.
    assert (Hf : f acc p = if Q p then acc ++ [p] else acc).
    { unfold f, array_includes.
      rewrite (bool_decide_eq_false_2 (p ∈ acc)) by (apply Hfresh; left).
      by rewrite andb_true_r. }
    rewrite Hf. destruct (Q p) eqn:HQ.
    + rewrite decide_True by done. rewrite IH; [by rewrite <- app_assoc|done|].
      intros q Hq [Hin| ->%list_elem_of_singleton]%elem_of_app; [|done].
      by apply (Hfresh q); [right|].
    + rewrite decide_False by done. apply IH; [done|].
      intros q Hq. apply Hfresh. by right.
Qed.

Lemma protocolPatterns_NoDup : NoDup protocolPatterns.
Proof. apply (bool_decide_unpack (NoDup protocolPatterns)). by vm_compute. Qed.

(** X22. [parseProtocols] always names at least one protocol, never the same
    one twice, and only names from its list of six, in the order of that
    list. For a non-empty text it names exactly the known protocols whose
    lower-cased name occurs in the lower-cased text, and the three defaults
    when none occurs; for a missing or empty text it names the three
    defaults. *)
Theorem parseProtocols_names_known_protocols (toLowerCase : string -> string)
    (lendingPoolString : option string) :
  let found := parseProtocols toLowerCase lendingPoolString in
  found <> [] /\ NoDup found /\ found `sublist_of` protocolPatterns /\
  (lendingPoolString = None \/ lendingPoolString = Some "" -> found = default_protocols) /\
  (forall s, lendingPoolString = Some s -> s <> "" ->
     let occurring :=
       filter (fun p => includes (toLowerCase s) (toLowerCase p) = true) protocolPatterns in
     found = if bool_decide (occurring = []) then default_protocols else occurring).
Proof.
  intros found.
  assert (Hdefault : default_protocols `sublist_of` protocolPatterns)
    by exact (sublist_take protocolPatterns 3).
  assert (Hshape : found = default_protocols \/
            exists s, lendingPoolString = Some s /\ s <> "" /\
              found = filter (fun p => includes (toLowerCase s) (toLowerCase p) = true)
                             protocolPatterns /\ found <> []).
  { subst found. unfold parseProtocols. destruct lendingPoolString as [s|]; [|by left].
    case_bool_decide as Hs; [by left|].
    rewrite (found_is_filter (fun p => includes (toLowerCase s) (toLowerCase p)) _ []
               protocolPatterns_NoDup) by (intros ? _ ?%elem_of_nil; done).
    rewrite app_nil_l. case_bool_decide as Hlen; [|by left].
    right. exists s. repeat split; try done. intros Hnil. rewrite Hnil in Hlen.
    cbn in Hlen. lia. }
  split; [|split; [|split; [|split]]].
  - destruct Hshape as [->|(s & _ & _ & _ & Hne)]; done.
  - eapply sublist_NoDup; [apply protocolPatterns_NoDup|].
    destruct Hshape as [->|(s & _ & _ & -> & _)]; [done|apply sublist_filter].
  - destruct Hshape as [->|(s & _ & _ & -> & _)]; [done|apply sublist_filter].
  - intros [->| ->]; reflexivity.
  - intros s -> Hs occurring. subst found. unfold parseProtocols.
    rewrite (bool_decide_eq_false_2 _ Hs).
    rewrite (found_is_filter (fun p => includes (toLowerCase s) (toLowerCase p)) _ []
               protocolPatterns_NoDup) by (intros ? _ ?%elem_of_nil; done).
    rewrite app_nil_l. fold occurring. destruct occurring as [|p l]; [done|].
    rewrite bool_decide_eq_true_2 by (cbn; lia).
    by rewrite bool_decide_eq_false_2.
Qed.

Lemma parseProtocols_names_known_protocols_witness :
  parseProtocols (fun s => s) (Some "Morpho USDC/WETH, Aerodrome USDC-WETH LP")
  = ["Morpho"; "Aerodrome"] /\
  parseProtocols (fun s => s) (Some "") = ["Morpho"; "Aerodrome"; "Merkl"].
Proof.
  destruct (parseProtocols_names_known_protocols (fun s => s)
              (Some "Morpho USDC/WETH, Aerodrome USDC-WETH LP")) as (_ & _ & _ & _ & H).
  destruct (parseProtocols_names_known_protocols (fun s => s) (Some ""))
    as (_ & _ & _ & H' & _).
  split.
  - rewrite (H _ eq_refl) by done. vm_compute. reflexivity.
  - apply H'. by right.
Defined.

Section Cache.
Variable toLowerCase : string -> string.
Variable number : Type.
Variable zero : number.
Variable formatUsd : number -> string.
Variable formatPercent : number -> string.


(** X23. For five minutes after a fetch that succeeded, [getStats] serves
    the stats of that fetch: it does not ask the API again, whatever the API
    would answer, and leaves the cache as it is. *)
Theorem getStats_serves_from_cache c now data iso now' get' iso' :
  cachedStats number c = None \/ CACHE_TTL_MS <= now - cacheTimestamp number c ->
  now' - now < CACHE_TTL_MS ->
  let fetched := Stats.getStats toLowerCase number zero formatUsd formatPercent c now (response number data) iso in
  cachedStats number fetched.2 = Some fetched.1 /\
  cacheTimestamp number fetched.2 = now /\
  lastUpdated number fetched.1 = iso /\
  Stats.getStats toLowerCase number zero formatUsd formatPercent fetched.2 now' get' iso' = fetched.
Proof.
  intros Hstale Hsoon fetched.
  assert (Hf : exists stats, fetched = (stats, mkCache number (Some stats) now)
                             /\ lastUpdated number stats = iso).
  { subst fetched. unfold Stats.getStats.
    destruct (cachedStats number c) as [old|]; [|by eexists].
    destruct Hstale as [?|Hstale]; [done|].
    rewrite bool_decide_eq_false_2 by lia. by eexists. }
  destruct Hf as (stats & -> & Hiso). cbn [fst snd cachedStats cacheTimestamp].
  repeat split; try done.
  unfold Stats.getStats. cbn [cachedStats cacheTimestamp].
  by rewrite bool_decide_eq_true_2.
Qed.

(** X24. A failing API never makes [getStats] fail: it then returns the
    cached stats, however old, or the fallback stats when nothing was ever
    fetched, and does not touch the cache. The failure is not remembered:
    with a stale or empty cache the next call, the clock not having gone
    back, asks again and caches what it gets. *)
Theorem getStats_survives_failure c now iso now' data iso' :
  let failing := Stats.getStats toLowerCase number zero formatUsd formatPercent c now (failed number) iso in
  failing.1 = match cachedStats number c with
              | Some stats => stats
              | None => Stats.getFallbackStats number zero iso
              end /\
  failing.2 = c /\
  (cachedStats number c = None \/ CACHE_TTL_MS <= now - cacheTimestamp number c ->
   now <= now' ->
   let retry := Stats.getStats toLowerCase number zero formatUsd formatPercent failing.2 now' (response number data) iso' in
   cachedStats number retry.2 = Some retry.1 /\
   cacheTimestamp number retry.2 = now' /\
   lastUpdated number retry.1 = iso').
Proof.
  intros failing.
  assert (Hf : failing = (match cachedStats number c with
                          | Some stats => stats
                          | None => Stats.getFallbackStats number zero iso
                          end, c)).
  { subst failing. unfold Stats.getStats.
    destruct (cachedStats number c) as [old|]; [|done].
    by destruct (bool_decide _). }
  rewrite Hf. cbn [fst snd]. split; [done|]. split; [done|].
  intros Hstale Hlater. unfold Stats.getStats.
  destruct (cachedStats number c) as [old|]; [|done].
  destruct Hstale as [?|Hstale]; [done|]. by rewrite bool_decide_eq_false_2 by lia.
Qed.

End Cache.

Lemma getStats_serves_from_cache_witness :
  let usd := fun n : Z => "$" +:+ pretty n in
  let pct := fun n : Z => pretty n +:+ "%" in
  let data := mkApiResponse Z (Some 236413) (Some 108) (Some 2) (Some 4030) (Some 12)
                            (Some 4) None (Some "Morpho USDC") None in
  let fetched := Stats.getStats (fun s => s) Z 0 usd pct (empty_cache Z) 1000
                                (response Z data) "2026-01-01T00:00:00.000Z" in
  tvl Z fetched.1 = "$236413" /\
  Stats.getStats (fun s => s) Z 0 usd pct fetched.2 300999 (failed Z)
                 "2026-01-01T00:05:00.000Z" = fetched.
Proof.
  intros usd pct data fetched.
  destruct (getStats_serves_from_cache (fun s => s) Z 0 usd pct (empty_cache Z) 1000 data
              "2026-01-01T00:00:00.000Z" 300999 (failed Z) "2026-01-01T00:05:00.000Z")
    as (_ & _ & _ & H); [by left | done |].
  split; [vm_compute; reflexivity | exact H].
Defined.

Lemma getStats_survives_failure_witness :
  (Stats.getStats (fun s => s) Z 0 (fun n => pretty n) (fun n => pretty n)
                  (empty_cache Z) 1000 (failed Z) "2026-01-01T00:00:00.000Z").1
  = Stats.getFallbackStats Z 0 "2026-01-01T00:00:00.000Z".
Proof.
  destruct (getStats_survives_failure (fun s => s) Z 0 (fun n => pretty n)
              (fun n => pretty n) (empty_cache Z) 1000 "2026-01-01T00:00:00.000Z" 1000
              (mkApiResponse Z None None None None None None None None None) "")
    as (H & _).
  exact H.
Defined.

End StatsFacts.
